(** * Connection lifecycle and state synchronisation of [src/socket.js]

    A shallow embedding of the Socket.io glue of the Stagetimer.io
    Companion module.  The module keeps one module-level [socket], builds a
    transport handle in [socketStart], registers twelve listeners on it and
    lets every listener talk to three collaborators: the host instance
    ([log], [updateStatus], [apiClient.send]), the state store
    ([updateRoomState] and friends) and the transport itself.

    Every call that leaves the module is recorded, in order, in the [trace]
    of a [World]; promises returned by [apiClient.send] are kept in
    [pending] together with the continuation chain attached to them and are
    settled by the environment. *)

From Stdlib Require Import SpecFloat.
From stdpp Require Import gmap strings list fin_maps pretty.

Set Warnings "-register-all,-clear-no-such-hyp".

Open Scope string_scope.
Open Scope list_scope.

(** ** JavaScript values *)

(** Values that reach the module: decoded payloads and responses
    ([null], booleans, numbers, strings, arrays, plain objects),
    [undefined] for what is absent, and the built-in function objects that
    a property read on a primitive can return.  A number is an IEEE 754
    value as the Standard Library describes them: a signed zero, a signed
    infinity, NaN, or sign, mantissa and exponent. *)
Inductive JsVal : Type :=
  | JUndefined
  | JNull
  | JBool (b : bool)
  | JNum (x : spec_float)
  | JStr (s : string)
  | JArr (items : list JsVal)
  | JObj (props : gmap string JsVal)
  | JFunction (name : string).

Abbreviation JsObj := (gmap string JsVal).

(** [ToBoolean]: what [!v] and [if (v)] look at. *)
Definition truthy (v : JsVal) : bool :=
  match v with
  | JUndefined | JNull => false
  | JBool b => b
  | JNum (S754_zero _) | JNum S754_nan => false
  | JNum _ => true
  | JStr s => negb (String.eqb s "")
  | JArr _ | JObj _ | JFunction _ => true
  end.

(** The property names this module reads, in destructuring patterns and in
    [error.message]. *)
Inductive Field : Type :=
  | F_data | F__id | F_name | F_blackout | F_focus_message
  | F_timer_id | F_running | F_start | F_finish | F_pause
  | F_speaker | F_notes | F_duration | F_wrap_up_yellow | F_wrap_up_red
  | F_showing | F_text | F_color | F_bold | F_uppercase | F_count.

Definition field_name (f : Field) : string :=
  match f with
  | F_data => "data" | F__id => "_id" | F_name => "name"
  | F_blackout => "blackout" | F_focus_message => "focus_message"
  | F_timer_id => "timer_id" | F_running => "running" | F_start => "start"
  | F_finish => "finish" | F_pause => "pause"
  | F_speaker => "speaker" | F_notes => "notes" | F_duration => "duration"
  | F_wrap_up_yellow => "wrap_up_yellow" | F_wrap_up_red => "wrap_up_red"
  | F_showing => "showing" | F_text => "text" | F_color => "color"
  | F_bold => "bold" | F_uppercase => "uppercase" | F_count => "count"
  end.

(** [v.f] for an object-coercible [v].  An object answers with its own
    property or [undefined]; none of the names above lives on
    [Object.prototype] or [Array.prototype].  A string inherits
    [String.prototype.bold], a function has a [name]. *)
Definition get_prop (v : JsVal) (f : Field) : JsVal :=
  match v with
  | JObj props => default JUndefined (props !! field_name f)
  | JStr _ => match f with F_bold => JFunction "bold" | _ => JUndefined end
  | JFunction n => match f with F_name => JStr n | _ => JUndefined end
  | _ => JUndefined
  end.

(** Destructuring [const { a, b } = v] first requires [v] to be
    object-coercible. *)
Definition object_coercible (v : JsVal) : bool :=
  match v with
  | JUndefined | JNull => false
  | _ => true
  end.

(** ** Errors *)

Record JsError : Type := mkError { err_name : string; err_message : string }.

Definition Error (message : string) : JsError := mkError "Error" message.

(** Destructuring [undefined] or [null] raises a [TypeError].  Its message
    is worded by the engine, from the pattern and the expression of the
    place in the source: it is a parameter of the model, a function of the
    line of [src/socket.js] and of the value that was destructured. *)
Class Engine : Type := destructure_message : nat → JsVal → string.

(** [Error.prototype.toString]. *)
Definition error_toString (e : JsError) : string :=
  if String.eqb (err_name e) "" then err_message e
  else if String.eqb (err_message e) "" then err_name e
  else err_name e +:+ ": " +:+ err_message e.

(** ** Collaborators *)

(** [InstanceStatus] of [@companion-module/base], the members used here. *)
Inductive InstanceStatus : Type :=
  | Ok | Connecting | Disconnected | ConnectionFailure | UnknownError.

(** Modelled from the spec: [actionIdType] is declared in [actions.js],
    which is not part of the sources at hand; section 6 of the spec lists
    the request kinds sent from here. *)
Inductive actionIdType : Type := get_room | get_status | get_timer.

Global Instance actionIdType_eq_dec : EqDecision actionIdType.
Proof. solve_decision. Defined.

(** Enum of allowed Stagetimer.io socket events. *)
Inductive stagetimerEvents : Type := playback_status | room | flash | message.

Definition event_name (ev : stagetimerEvents) : string :=
  match ev with
  | playback_status => "playback_status"
  | room => "room"
  | flash => "flash"
  | message => "message"
  end.

Record Config : Type := mkConfig { apiUrl : string; roomId : string; apiKey : string }.

(** The module instance handed to [socketStart]; [None] in [config]
    stands for a missing (falsy) configuration. *)
Record Instance : Type := mkInstance { iid : nat; config : option Config }.

(** What [new URL(apiUrl)] exposes. *)
Record Url : Type := mkUrl { origin : string; pathname : string }.

Record Auth : Type := mkAuth { room_id : string; api_key : string }.

(** Second argument of [io]. *)
Record IoOptions : Type := mkOptions {
  path : string;
  auth : Auth;
  reconnectionAttempts : N;
  reconnectionDelayMax : N   (* milliseconds *)
}.

(** ** Observable calls *)

Inductive Effect : Type :=
  | ELog (i : nat) (level msg : string)
  | EUpdateStatus (i : nat) (status : InstanceStatus)
  | ESend (i : nat) (kind : actionIdType) (params : JsObj) (promise : nat)
  | EUpdateRoomState (partial : JsObj)
  | EUpdatePlaybackState (partial : JsObj)
  | EUpdateTimerState (partial : JsObj)
  | EUpdateMessageState (partial : JsObj)
  | EUpdateFlashingState (count : JsVal)
  | EIo (h : nat) (url_origin : string) (opts : IoOptions)
  | ESocketConnect (h : nat)
  | ESocketDisconnect (h : nat)
  | EUnhandledRejection (e : JsError).

(** ** Listeners and promise continuations, defunctionalised *)

(** The channels a listener is registered on: eight transport signals
    (four on the socket, four on its manager [socket.io]) and the four
    Stagetimer events. *)
Inductive Channel : Type :=
  | OnConnect | OnConnectError | OnDisconnect | OnError
  | MgrReconnectAttempt | MgrReconnect | MgrReconnectFailed | MgrError
  | OnEvent (ev : stagetimerEvents).

Global Instance stagetimerEvents_eq_dec : EqDecision stagetimerEvents.
Proof. solve_decision. Defined.
Global Instance Channel_eq_dec : EqDecision Channel.
Proof. solve_decision. Defined.

Inductive Emitter : Type := OfSocket | OfManager.

Definition channel_name (c : Channel) : Emitter * string :=
  match c with
  | OnConnect => (OfSocket, "connect")
  | OnConnectError => (OfSocket, "connect_error")
  | OnDisconnect => (OfSocket, "disconnect")
  | OnError => (OfSocket, "error")
  | MgrReconnectAttempt => (OfManager, "reconnect_attempt")
  | MgrReconnect => (OfManager, "reconnect")
  | MgrReconnectFailed => (OfManager, "reconnect_failed")
  | MgrError => (OfManager, "error")
  | OnEvent ev => (OfSocket, event_name ev)
  end.

(** A registered arrow function: the channel it was registered on and the
    [instance] it closes over. *)
Record Listener : Type := mkListener { l_channel : Channel; l_instance : Instance }.

(** What the transport hands to the listeners of a channel. *)
Inductive Signal : Type :=
  | SigConnect
  | SigConnectError (error : JsError)
  | SigDisconnect (reason : string)
  | SigError (error : JsError)
  | SigReconnectAttempt (attempt : N)
  | SigReconnect (attempt : N)
  | SigReconnectFailed
  | SigMgrError (error : JsError)
  | SigEvent (ev : stagetimerEvents) (payload : JsVal).

Definition signal_channel (s : Signal) : Channel :=
  match s with
  | SigConnect => OnConnect
  | SigConnectError _ => OnConnectError
  | SigDisconnect _ => OnDisconnect
  | SigError _ => OnError
  | SigReconnectAttempt _ => MgrReconnectAttempt
  | SigReconnect _ => MgrReconnect
  | SigReconnectFailed => MgrReconnectFailed
  | SigMgrError _ => MgrError
  | SigEvent ev _ => OnEvent ev
  end.

(** The callbacks given to [.then] and [.catch]. *)
Inductive ThenCb : Type :=
  | KRoom                        (* lines 81-91 *)
  | KStatus                      (* lines 97-110 *)
  | KTimerGuard (inst : Instance) (* lines 111-114 *)
  | KTimer.                      (* lines 224-236 *)

Inductive CatchCb : Type :=
  | KLogError (inst : Instance). (* lines 92-94, 115-117, 237-239 *)

Inductive Stage : Type :=
  | SThen (k : ThenCb)
  | SCatch (k : CatchCb).

(** Modelled from the spec: the API client lives outside [socket.js];
    by section 6 its [send] returns a promise that resolves with a response
    or rejects with an error carrying a descriptive message. *)
Inductive Outcome : Type :=
  | Fulfilled (value : JsVal)
  | Rejected (reason : JsError).

(** ** The world *)

(** A socket built by [io]: [h_live] holds from its creation until
    [disconnect()] is called on it, [h_connected] between a [connect] and
    the next [disconnect] signal. *)
Record Handle : Type := mkHandle {
  h_origin : string;
  h_opts : IoOptions;
  h_listeners : list Listener;
  h_live : bool;
  h_connected : bool
}.

Record World : Type := mkWorld {
  socket : option nat;               (* [let socket = null] *)
  handles : list Handle;             (* every socket built so far *)
  pending : gmap nat (list Stage);   (* unsettled [send] promises *)
  next_promise : nat;
  trace : list Effect
}.

Definition init_world : World := mkWorld None [] ∅ 0 [].

(** ** State and exception monad *)

Inductive Result (A : Type) : Type :=
  | Ret (a : A)
  | Throw (e : JsError).
Arguments Ret {A} a.
Arguments Throw {A} e.

Definition M (A : Type) : Type := World → Result A * World.

Global Instance M_ret : MRet M := λ A a w, (Ret a, w).
Global Instance M_bind : MBind M := λ A B f m w,
  match m w with
  | (Ret a, w') => f a w'
  | (Throw e, w') => (Throw e, w')
  end.

Definition throw {A} (e : JsError) : M A := λ w, (Throw e, w).

Definition emit (e : Effect) : M unit := λ w,
  (Ret (), mkWorld (socket w) (handles w) (pending w) (next_promise w) (trace w ++ [e])).

Definition set_socket (h : nat) : M unit := λ w,
  (Ret (), mkWorld (Some h) (handles w) (pending w) (next_promise w) (trace w)).

Definition set_handles (hs : list Handle) : M unit := λ w,
  (Ret (), mkWorld (socket w) hs (pending w) (next_promise w) (trace w)).

Definition get_world : M World := λ w, (Ret w, w).

(** What follows runs on an engine, whichever it is. *)
Section Model.
Context {engine : Engine}.

(** [const { ... } = v] and the parameter pattern [({ ... }) =>], at a line
    of the source: fails on [undefined] and [null]. *)
Definition destructure (line : nat) (v : JsVal) : M unit :=
  if object_coercible v then mret ()
  else throw (mkError "TypeError" (destructure_message line v)).

(** ** Host instance, API client and state store *)

Definition log (inst : Instance) (level msg : string) : M unit :=
  emit (ELog (iid inst) level msg).

Definition updateStatus (inst : Instance) (status : InstanceStatus) : M unit :=
  emit (EUpdateStatus (iid inst) status).

(** [instance.apiClient.send(kind, params)]: the request leaves and a fresh
    promise comes back. *)
Definition apiClient_send (inst : Instance) (kind : actionIdType) (params : JsObj)
  : M nat := λ w,
  let p := next_promise w in
  (Ret p, mkWorld (socket w) (handles w) (pending w) (S p)
                  (trace w ++ [ESend (iid inst) kind params p])).

(** [promise.then(..)...catch(..)]: the chain waits for the promise. *)
Definition attach (p : nat) (stages : list Stage) : M unit := λ w,
  (Ret (), mkWorld (socket w) (handles w) (<[p := stages]> (pending w))
                   (next_promise w) (trace w)).

Definition updateRoomState (partial : JsObj) : M unit := emit (EUpdateRoomState partial).
Definition updatePlaybackState (partial : JsObj) : M unit := emit (EUpdatePlaybackState partial).
Definition updateTimerState (partial : JsObj) : M unit := emit (EUpdateTimerState partial).
Definition updateMessageState (partial : JsObj) : M unit := emit (EUpdateMessageState partial).
Definition updateFlashingState (count : JsVal) : M unit := emit (EUpdateFlashingState count).

(** ** Promise callbacks *)

(** Lines 221-239. *)
Definition getTimerAndUpdateState (inst : Instance) (timer_id : JsVal) : M unit :=
  p ← apiClient_send inst get_timer {[ "timer_id" := timer_id ]};
  attach p [SThen KTimer; SCatch (KLogError inst)].

Definition timer_then (response : JsVal) : M JsVal :=
  destructure 224 response;;
  let data := get_prop response F_data in
  destructure 226 data;;
  updateTimerState {[ "name" := get_prop data F_name;
                      "speaker" := get_prop data F_speaker;
                      "notes" := get_prop data F_notes;
                      "duration" := get_prop data F_duration;
                      "wrap_up_yellow" := get_prop data F_wrap_up_yellow;
                      "wrap_up_red" := get_prop data F_wrap_up_red ]};;
  mret JUndefined.

(** Lines 81-91. *)
Definition room_then (response : JsVal) : M JsVal :=
  destructure 81 response;;
  let data := get_prop response F_data in
  destructure 83 data;;
  updateRoomState {[ "roomId" := get_prop data F__id;
                     "roomName" := get_prop data F_name;
                     "roomBlackout" := get_prop data F_blackout;
                     "roomFocus" := get_prop data F_focus_message ]};;
  mret JUndefined.

(** The snapshot built from a [get_status] response and from a
    [playback_status] payload (lines 101-107 and 168-174). *)
Definition playback_partial (data : JsVal) : JsObj :=
  {[ "currentTimerId" := get_prop data F_timer_id;
     "isRunning" := get_prop data F_running;
     "kickoff" := get_prop data F_start;
     "deadline" := get_prop data F_finish;
     "lastStop" := get_prop data F_pause ]}.

(** Lines 97-110. *)
Definition status_then (response : JsVal) : M JsVal :=
  destructure 97 response;;
  let data := get_prop response F_data in
  destructure 99 data;;
  updatePlaybackState (playback_partial data);;
  mret (get_prop data F_timer_id).

(** Lines 111-114. *)
Definition timer_guard (inst : Instance) (timer_id : JsVal) : M JsVal :=
  if negb (truthy timer_id) then mret (JBool false)
  else getTimerAndUpdateState inst timer_id;; mret JUndefined.

(** The three [.catch] callbacks are the same arrow function. *)
Definition log_error (inst : Instance) (error : JsError) : M JsVal :=
  log inst "error" (error_toString error);; mret JUndefined.

Definition run_then (k : ThenCb) (value : JsVal) : M JsVal :=
  match k with
  | KRoom => room_then value
  | KStatus => status_then value
  | KTimerGuard inst => timer_guard inst value
  | KTimer => timer_then value
  end.

Definition run_catch (k : CatchCb) (reason : JsError) : M JsVal :=
  match k with
  | KLogError inst => log_error inst reason
  end.

(** A callback that returns fulfils the next promise of the chain, one
    that throws rejects it. *)
Definition capture (m : M JsVal) : M Outcome := λ w,
  match m w with
  | (Ret v, w') => (Ret (Fulfilled v), w')
  | (Throw e, w') => (Ret (Rejected e), w')
  end.

(** [.then] passes a rejection on untouched, [.catch] a fulfilment. *)
Fixpoint run_chain (stages : list Stage) (o : Outcome) : M Outcome :=
  match stages with
  | [] => mret o
  | SThen k :: rest =>
      match o with
      | Fulfilled v => o' ← capture (run_then k v); run_chain rest o'
      | Rejected _ => run_chain rest o
      end
  | SCatch k :: rest =>
      match o with
      | Fulfilled _ => run_chain rest o
      | Rejected e => o' ← capture (run_catch k e); run_chain rest o'
      end
  end.

(** The environment settles a promise: its chain runs to the end; a
    rejection that no stage handled is reported.  A promise settles at most
    once, later attempts find nothing.  The stages of a chain run in
    successive microtasks of one turn of the event loop; with one
    settlement per turn nothing else runs in between. *)
Definition settle (p : nat) (o : Outcome) : M unit := λ w,
  match pending w !! p with
  | None => (Ret (), w)
  | Some stages =>
      (o' ← run_chain stages o;
       match o' with
       | Fulfilled _ => mret ()
       | Rejected e => emit (EUnhandledRejection e)
       end)
      (mkWorld (socket w) (handles w) (delete p (pending w)) (next_promise w) (trace w))
  end.

(** ** Listeners registered by [socketStart] *)

(** Lines 76-118; the two fetches after the status update are the
    bootstrap synchronisation. *)
Definition bootstrap (inst : Instance) : M unit :=
  p ← apiClient_send inst get_room ∅;
  attach p [SThen KRoom; SCatch (KLogError inst)];;
  q ← apiClient_send inst get_status ∅;
  attach q [SThen KStatus; SThen (KTimerGuard inst); SCatch (KLogError inst)].

Definition on_connect (inst : Instance) : M unit :=
  log inst "info" "Connected!";;
  updateStatus inst Ok;;
  bootstrap inst.

(** Lines 120-123. *)
Definition on_connect_error (inst : Instance) (error : JsError) : M unit :=
  log inst "warn" ("Failed to connect! (" +:+ err_message error +:+ ")");;
  updateStatus inst ConnectionFailure.

(** Lines 125-129. *)
Definition on_disconnect (inst : Instance) (reason : string) : M unit :=
  if String.eqb reason "io client disconnect" then mret ()
  else
    log inst "warn" ("Disconnected! Reason: " +:+ reason);;
    updateStatus inst Disconnected.

(** Lines 131-134. *)
Definition on_error (inst : Instance) (error : JsError) : M unit :=
  log inst "error" ("Unexpected error: " +:+ err_message error);;
  updateStatus inst UnknownError.

(** Lines 140-143. *)
Definition on_reconnect_attempt (inst : Instance) (attempt : N) : M unit :=
  log inst "warn" ("Reconnecting... (Attempt #" +:+ pretty attempt +:+ ")");;
  updateStatus inst Connecting.

(** Lines 145-148. *)
Definition on_reconnect (inst : Instance) (attempt : N) : M unit :=
  log inst "info" ("Reconnected on attempt #" +:+ pretty attempt +:+ "!");;
  updateStatus inst Ok.

(** Lines 150-153. *)
Definition on_reconnect_failed (inst : Instance) : M unit :=
  log inst "error" "Unable to connect to Stagetimer.io!";;
  updateStatus inst ConnectionFailure.

(** Lines 155-157. *)
Definition on_manager_error (inst : Instance) (error : JsError) : M unit :=
  log inst "debug" ("[Socket manager] Unexpected error: " +:+ error_toString error).

(** Lines 163-177. *)
Definition on_playback_status (inst : Instance) (payload : JsVal) : M unit :=
  log inst "debug" "Event: playback_status";;
  destructure 166 payload;;
  updatePlaybackState (playback_partial payload);;
  getTimerAndUpdateState inst (get_prop payload F_timer_id).

(** Lines 179-188. *)
Definition on_room (inst : Instance) (payload : JsVal) : M unit :=
  log inst "debug" "Event: room";;
  destructure 182 payload;;
  updateRoomState {[ "roomBlackout" := get_prop payload F_blackout;
                     "roomFocus" := get_prop payload F_focus_message ]}.

(** Lines 190-202. *)
Definition on_message (inst : Instance) (payload : JsVal) : M unit :=
  log inst "debug" "Event: message";;
  destructure 193 payload;;
  updateMessageState {[ "showing" := get_prop payload F_showing;
                        "text" := get_prop payload F_text;
                        "color" := get_prop payload F_color;
                        "bold" := get_prop payload F_bold;
                        "uppercase" := get_prop payload F_uppercase ]}.

(** Lines 204-210. *)
Definition on_flash (inst : Instance) (payload : JsVal) : M unit :=
  log inst "debug" "Event: flash";;
  destructure 207 payload;;
  updateFlashingState (get_prop payload F_count).

(** The arrow function that [socketStart inst] registers for the channel
    of [s], applied to what the signal carries. *)
Definition handler (inst : Instance) (s : Signal) : M unit :=
  match s with
  | SigConnect => on_connect inst
  | SigConnectError error => on_connect_error inst error
  | SigDisconnect reason => on_disconnect inst reason
  | SigError error => on_error inst error
  | SigReconnectAttempt attempt => on_reconnect_attempt inst attempt
  | SigReconnect attempt => on_reconnect inst attempt
  | SigReconnectFailed => on_reconnect_failed inst
  | SigMgrError error => on_manager_error inst error
  | SigEvent playback_status payload => on_playback_status inst payload
  | SigEvent room payload => on_room inst payload
  | SigEvent message payload => on_message inst payload
  | SigEvent flash payload => on_flash inst payload
  end.

(** A listener runs when the signal is of the channel it listens on. *)
Definition invoke (l : Listener) (s : Signal) : M unit :=
  if decide (l_channel l = signal_channel s) then handler (l_instance l) s
  else mret ().

(** [emit]: the listeners run in registration order; one that throws
    ends the round. *)
Fixpoint run_listeners (ls : list Listener) (s : Signal) : M unit :=
  match ls with
  | [] => mret ()
  | l :: rest => invoke l s;; run_listeners rest s
  end.

(** ** Transport *)

(** The transport is socket.io-client.  Of its behaviour the module relies
    on this much: [io] answers every call of [socketStart] with a socket of
    its own, which starts to connect at once; [disconnect()] detaches the
    socket from its manager for good and, on a connected socket, emits
    [disconnect] with the reason ['io client disconnect'] before it
    returns; the listeners of an event run in the order of their
    registration. *)

(** [io(origin, opts)]. *)
Definition io (url_origin : string) (opts : IoOptions) : M nat := λ w,
  let h := length (handles w) in
  (Ret h, mkWorld (socket w) (handles w ++ [mkHandle url_origin opts [] true false])
                  (pending w) (next_promise w) (trace w ++ [EIo h url_origin opts])).

(** [socket.on(..)] and [socket.io.on(..)]. *)
Definition add_listener (l : Listener) (hd : Handle) : Handle :=
  mkHandle (h_origin hd) (h_opts hd) (h_listeners hd ++ [l]) (h_live hd) (h_connected hd).

Definition socket_on (h : nat) (c : Channel) (inst : Instance) : M unit := λ w,
  (Ret (), mkWorld (socket w) (alter (add_listener (mkListener c inst)) h (handles w))
                   (pending w) (next_promise w) (trace w)).

Definition emit_signal (h : nat) (s : Signal) : M unit := λ w,
  match handles w !! h with
  | Some hd => run_listeners (h_listeners hd) s w
  | None => (Ret (), w)
  end.

Definition set_flags (live connected : bool) (hd : Handle) : Handle :=
  mkHandle (h_origin hd) (h_opts hd) (h_listeners hd) live connected.

(** [socket.connect()]: nothing to do on a connected socket, otherwise
    the socket is (again) opening. *)
Definition socket_connect (h : nat) : M unit :=
  emit (ESocketConnect h);;
  w ← get_world;
  set_handles (alter (λ hd, if h_connected hd then hd else set_flags true false hd)
                     h (handles w)).

(** [socket.disconnect()]: the socket is detached from its manager; if
    it was connected its listeners are told so at once, with the reason
    the transport gives to a close asked for by the client. *)
Definition socket_disconnect (h : nat) : M unit :=
  emit (ESocketDisconnect h);;
  w ← get_world;
  match handles w !! h with
  | None => mret ()
  | Some hd =>
      set_handles (<[h := set_flags false false hd]> (handles w));;
      if h_connected hd then emit_signal h (SigDisconnect "io client disconnect")
      else mret ()
  end.

(** [socket.connected] after a signal. *)
Definition signal_connected (s : Signal) (before : bool) : bool :=
  match s with
  | SigConnect => true
  | SigDisconnect _ => false
  | _ => before
  end.

(** A signal raised by the transport on socket [h].  A socket that was
    disconnected by the module hears nothing any more. *)
Definition deliver (h : nat) (s : Signal) : M unit := λ w,
  match handles w !! h with
  | Some hd =>
      if h_live hd then
        (set_handles
           (<[h := set_flags true (signal_connected s (h_connected hd)) hd]> (handles w));;
         emit_signal h s) w
      else (Ret (), w)
  | None => (Ret (), w)
  end.

(** ** The exported functions *)

(** Lines 33-37. *)
Definition socketStop : M unit := λ w,
  match socket w with
  | Some h => socket_disconnect h w
  | None => (Ret (), w)
  end.

Section Start.

(** [new URL(apiUrl)], [None] when the constructor throws. *)
Variable new_URL : string → option Url.

Definition parse_url (s : string) : M Url :=
  match new_URL s with
  | Some url => mret url
  | None => throw (mkError "TypeError" "Invalid URL")
  end.

(** Lines 45-214. *)
Definition socketStart (instance : option Instance) : M unit :=
  match instance with
  | None => throw (Error "Module instance required")
  | Some inst =>
      match config inst with
      | None => throw (Error "Module instance required")
      | Some cfg =>
          url ← parse_url (apiUrl cfg);
          socketStop;;
          log inst "info" "Connecting to Stagetimer.io...";;
          updateStatus inst Connecting;;
          h ← io (origin url)
                 (mkOptions (pathname url +:+ "socket.io")
                            (mkAuth (roomId cfg) (apiKey cfg))
                            5 10000);
          set_socket h;;
          socket_on h OnConnect inst;;
          socket_on h OnConnectError inst;;
          socket_on h OnDisconnect inst;;
          socket_on h OnError inst;;
          socket_on h MgrReconnectAttempt inst;;
          socket_on h MgrReconnect inst;;
          socket_on h MgrReconnectFailed inst;;
          socket_on h MgrError inst;;
          socket_on h (OnEvent playback_status) inst;;
          socket_on h (OnEvent room) inst;;
          socket_on h (OnEvent message) inst;;
          socket_on h (OnEvent flash) inst;;
          socket_connect h
      end
  end.

(** ** Runs *)

(** What can happen to the module: a call from the host, a signal from the
    transport, a promise settled by the API client. *)
Inductive Action : Type :=
  | CallStart (instance : option Instance)
  | CallStop
  | Transport (h : nat) (s : Signal)
  | Settle (p : nat) (o : Outcome).

Definition perform (a : Action) : M unit :=
  match a with
  | CallStart instance => socketStart instance
  | CallStop => socketStop
  | Transport h s => deliver h s
  | Settle p o => settle p o
  end.

(** One turn of the event loop after the other; what a turn throws is the
    host's to report and the next turn starts from the state it left. *)
Definition exec (actions : list Action) (w : World) : World :=
  foldl (λ w a, (perform a w).2) w actions.

End Start.

End Model.

(** ** Reading a trace *)

(** The calls made between two worlds of one run. *)
Definition since (w w' : World) : list Effect := drop (length (trace w)) (trace w').

Definition statuses (tr : list Effect) : list InstanceStatus :=
  omap (λ e, match e with EUpdateStatus _ s => Some s | _ => None end) tr.

(** Parameters of the requests of one kind, in the order they left. *)
Definition requests (kind : actionIdType) (tr : list Effect) : list JsObj :=
  omap (λ e, match e with
             | ESend _ k params _ => if decide (k = kind) then Some params else None
             | _ => None
             end) tr.

Definition room_updates (tr : list Effect) : list JsObj :=
  omap (λ e, match e with EUpdateRoomState p => Some p | _ => None end) tr.

Definition playback_updates (tr : list Effect) : list JsObj :=
  omap (λ e, match e with EUpdatePlaybackState p => Some p | _ => None end) tr.

Definition timer_updates (tr : list Effect) : list JsObj :=
  omap (λ e, match e with EUpdateTimerState p => Some p | _ => None end) tr.

Definition rejections (tr : list Effect) : list JsError :=
  omap (λ e, match e with EUnhandledRejection r => Some r | _ => None end) tr.

(** Calls on the transport: building, opening and closing a socket. *)
Definition transport_call (e : Effect) : bool :=
  match e with
  | EIo _ _ _ | ESocketConnect _ | ESocketDisconnect _ => true
  | _ => false
  end.

(** Calls that neither report a status nor touch the transport. *)
Definition background_call (e : Effect) : bool :=
  match e with
  | EUpdateStatus _ _ | EIo _ _ _ | ESocketConnect _ | ESocketDisconnect _ => false
  | _ => true
  end.

(** What a step of a listener or of a promise chain leaves alone: the
    module variable and the sockets; its calls [d] are appended to the
    trace. *)
Definition footprint (w w' : World) (d : list Effect) : Prop :=
  socket w' = socket w ∧ handles w' = handles w ∧ trace w' = trace w ++ d.

Definition live_step (live : gset nat) (e : Effect) : gset nat :=
  match e with
  | EIo h _ _ | ESocketConnect h => {[ h ]} ∪ live
  | ESocketDisconnect h => live ∖ {[ h ]}
  | _ => live
  end.

(** The sockets that were built or opened and not disconnected since. *)
Definition live_handles (tr : list Effect) : gset nat := foldl live_step ∅ tr.

(** At every moment of the trace at most one socket is live. *)
Definition at_most_one_live (tr : list Effect) : Prop :=
  ∀ p, p `prefix_of` tr → (size (live_handles p) ≤ 1)%nat.

(** The twelve listeners of lines 76-210, in registration order. *)
Definition listeners_of (inst : Instance) : list Listener :=
  map (λ c, mkListener c inst)
      [OnConnect; OnConnectError; OnDisconnect; OnError;
       MgrReconnectAttempt; MgrReconnect; MgrReconnectFailed; MgrError;
       OnEvent playback_status; OnEvent room; OnEvent message; OnEvent flash].

(** The state the module is in after [socketStop] ran in [w]. *)
Definition stopped (w : World) : World :=
  match socket w with
  | None => w
  | Some h =>
      mkWorld (socket w)
              (match handles w !! h with
               | Some hd => <[h := set_flags false false hd]> (handles w)
               | None => handles w
               end)
              (pending w) (next_promise w) (trace w ++ [ESocketDisconnect h])
  end.

(** Socket [h] is live and carries the listeners of [inst]. *)
Definition listening (h : nat) (inst : Instance) (w : World) : Prop :=
  ∃ hd, handles w !! h = Some hd ∧ h_live hd = true
        ∧ h_listeners hd = listeners_of inst.

(** The options of lines 60-70. *)
Definition start_options (cfg : Config) (url : Url) : IoOptions :=
  mkOptions (pathname url +:+ "socket.io") (mkAuth (roomId cfg) (apiKey cfg)) 5 10000.

(** The state the module is in after [socketStart] ran in [w] with a
    usable configuration. *)
Definition started (inst : Instance) (cfg : Config) (url : Url) (w : World) : World :=
  let w1 := stopped w in
  let h := length (handles w) in
  mkWorld (Some h)
          (handles w1 ++ [mkHandle (origin url) (start_options cfg url)
                                   (listeners_of inst) true false])
          (pending w) (next_promise w)
          (trace w1 ++ [ELog (iid inst) "info" "Connecting to Stagetimer.io...";
                        EUpdateStatus (iid inst) Connecting;
                        EIo h (origin url) (start_options cfg url);
                        ESocketConnect h]).

(** The invariant of every run: the trace and the sockets agree on which
    sockets are live, a live socket is the one [socket] holds, every
    socket carries the twelve listeners of one instance, and at no moment
    were two sockets live. *)
Definition consistent (w : World) : Prop :=
  (∀ h, h ∈ live_handles (trace w) ↔ ∃ hd, handles w !! h = Some hd ∧ h_live hd = true)
  ∧ (∀ h, h ∈ live_handles (trace w) → socket w = Some h)
  ∧ (∀ h hd, handles w !! h = Some hd → ∃ inst, h_listeners hd = listeners_of inst)
  ∧ at_most_one_live (trace w).

(** ** The specification's side *)

(** The transition table of section 4.1 of the specification, one line per
    transport signal; signals the table does not list change nothing. *)
Definition spec_transition (s : Signal) : option InstanceStatus :=
  match s with
  | SigConnect => Some Ok
  | SigConnectError _ => Some ConnectionFailure
  | SigDisconnect reason =>
      if decide (reason = "io client disconnect") then None else Some Disconnected
  | SigError _ => Some UnknownError
  | SigReconnectAttempt _ => Some Connecting
  | SigReconnect _ => Some Ok
  | SigReconnectFailed => Some ConnectionFailure
  | SigMgrError _ | SigEvent _ _ => None
  end.

(** The status the table gives to one step of a run on socket [h]:
    settling a promise is no transport signal. *)
Definition spec_status (a : Action) : option InstanceStatus :=
  match a with
  | Transport _ s => spec_transition s
  | _ => None
  end.

(** The steps of a run on socket [h]: signals on [h] and settlements. *)
Definition on_socket (h : nat) (a : Action) : Prop :=
  match a with
  | Transport h' _ => h' = h
  | Settle _ _ => True
  | CallStart _ | CallStop => False
  end.

(** The field names section 3 of the specification gives to a
    TimerSnapshot. *)
Definition spec_TimerSnapshot_fields : gset string :=
  {[ "name"; "speaker"; "notes"; "duration"; "wrapUpYellowAt"; "wrapUpRedAt" ]}.

(** Modelled from the spec: the state store of [state.js] is not part of
    the sources at hand; by section 6 a mutator merges the partial it is
    given and leaves the fields the partial omits untouched. *)
Definition merge_partial (partial store : JsObj) : JsObj := partial ∪ store.

(** ** Sample data *)

Definition sample_url : Url := mkUrl "https://api.stagetimer.io" "/v1/".

(** A stand-in for [new URL]: good enough for the one address used
    below. *)
Definition sample_URL (s : string) : option Url :=
  if String.prefix "https://" s then Some sample_url else None.

Definition sample_config : Config :=
  mkConfig "https://api.stagetimer.io/v1/" "ROOM" "KEY".

Definition sample_instance : Instance := mkInstance 7 (Some sample_config).

(** The number [n]. *)
Definition js_number (n : positive) : JsVal := JNum (S754_finite false n 0).

Definition sample_status_response (timer_id : JsVal) : JsVal :=
  JObj {[ "data" := JObj {[ "timer_id" := timer_id; "running" := JBool true;
                           "start" := js_number 1000; "finish" := js_number 61000;
                           "pause" := JNull ]} ]}.

Definition sample_timer_response : JsVal :=
  JObj {[ "data" := JObj {[ "name" := JStr "Keynote"; "speaker" := JStr "Ada";
                           "notes" := JStr ""; "duration" := js_number 60000;
                           "wrap_up_yellow" := js_number 30000;
                           "wrap_up_red" := js_number 10000 ]} ]}.

Definition sample_room_payload : JsVal :=
  JObj {[ "blackout" := JBool true; "focus_message" := JStr "x" ]}.

Definition sample_store : JsObj :=
  {[ "roomId" := JStr "ROOM"; "roomName" := JStr "Main stage";
     "roomBlackout" := JBool false; "roomFocus" := JNull ]}.

Definition sample_playback_payload (timer_id : JsVal) : JsVal :=
  JObj {[ "timer_id" := timer_id; "running" := JBool false;
          "start" := JNull; "finish" := JNull; "pause" := JNull ]}.

Definition sample_error : JsError := Error "Request failed with status code 404".

(** An engine for the sample runs: its messages name the line only. *)
Definition sample_engine : Engine :=
  λ line _, "Cannot destructure at line " +:+ pretty line.

(** ** The rest of the module *)

(** The objects built at lines 85-90, 195-201 and 228-235. *)
Definition room_partial (data : JsVal) : JsObj :=
  {[ "roomId" := get_prop data F__id;
     "roomName" := get_prop data F_name;
     "roomBlackout" := get_prop data F_blackout;
     "roomFocus" := get_prop data F_focus_message ]}.

Definition message_partial (payload : JsVal) : JsObj :=
  {[ "showing" := get_prop payload F_showing;
     "text" := get_prop payload F_text;
     "color" := get_prop payload F_color;
     "bold" := get_prop payload F_bold;
     "uppercase" := get_prop payload F_uppercase ]}.

Definition timer_partial (data : JsVal) : JsObj :=
  {[ "name" := get_prop data F_name;
     "speaker" := get_prop data F_speaker;
     "notes" := get_prop data F_notes;
     "duration" := get_prop data F_duration;
     "wrap_up_yellow" := get_prop data F_wrap_up_yellow;
     "wrap_up_red" := get_prop data F_wrap_up_red ]}.

(** The chains attached at lines 81-94, 97-117 and 224-239. *)
Definition room_chain (inst : Instance) : list Stage :=
  [SThen KRoom; SCatch (KLogError inst)].

Definition status_chain (inst : Instance) : list Stage :=
  [SThen KStatus; SThen (KTimerGuard inst); SCatch (KLogError inst)].

Definition timer_chain (inst : Instance) : list Stage :=
  [SThen KTimer; SCatch (KLogError inst)].

(** A response whose [data] can be destructured. *)
Definition well_formed_response (response : JsVal) : bool :=
  object_coercible response && object_coercible (get_prop response F_data).

(** The levels of the host's [log]. *)
Definition known_level (level : string) : bool :=
  String.eqb level "info" || String.eqb level "warn"
  || String.eqb level "error" || String.eqb level "debug".

(** A call that is in order: a log at a known level, anything but the
    report of an unhandled rejection. *)
Definition orderly_call (e : Effect) : bool :=
  match e with
  | ELog _ level _ => known_level level
  | EUnhandledRejection _ => false
  | _ => true
  end.

(** A chain whose last stage is a [.catch]. *)
Definition ends_in_catch (stages : list Stage) : bool :=
  match last stages with
  | Some (SCatch _) => true
  | _ => false
  end.

(** Every call so far was in order and every pending chain ends in a
    [.catch]. *)
Definition orderly (w : World) : Prop :=
  forallb orderly_call (trace w) = true
  ∧ map_Forall (λ _ stages, ends_in_catch stages = true) (pending w).

(** A log or a status report. *)
Definition report_call (e : Effect) : bool :=
  match e with
  | ELog _ _ _ | EUpdateStatus _ _ => true
  | _ => false
  end.

(** The module variable holds the socket built last, if any was built. *)
Definition holds_latest (w : World) : Prop :=
  match socket w with
  | None => handles w = []
  | Some h => S h = length (handles w)
  end.

(** The world in which socket [h] has heard signal [s] and its listeners
    have not run yet. *)
Definition heard (h : nat) (s : Signal) (hd : Handle) (w : World) : World :=
  mkWorld (socket w)
          (<[h := set_flags true (signal_connected s (h_connected hd)) hd]> (handles w))
          (pending w) (next_promise w) (trace w).

Definition sample_timer_response_b : JsVal :=
  JObj {[ "data" := JObj {[ "name" := JStr "Panel"; "speaker" := JStr "Grace";
                           "notes" := JStr "Q&A"; "duration" := js_number 1800000;
                           "wrap_up_yellow" := js_number 300000;
                           "wrap_up_red" := js_number 60000 ]} ]}.

Definition sample_message_payload : JsVal :=
  JObj {[ "showing" := JBool true; "text" := JStr "Wrap up"; "color" := JStr "red";
          "bold" := JBool true; "uppercase" := JBool false ]}.

Definition sample_flash_payload : JsVal := JObj {[ "count" := js_number 3 ]}.

(** * Proofs *)

Section Proofs.
Context {engine : Engine}.

(** No two channels share an emitter and an event name: choosing the
    listeners of a signal by channel is choosing them by name. *)
Lemma channel_name_inj c1 c2 : channel_name c1 = channel_name c2 → c1 = c2.
Proof.
  destruct c1 as [| | | | | | | |[]], c2 as [| | | | | | | |[]]; cbn; intros H;
    first [reflexivity | discriminate H].
Qed.

(** ** Evaluation *)

Ltac proj_m := cbn [trace socket handles pending next_promise fst snd].

(** Evaluation of a short monadic program on a symbolic world. *)
Ltac run_m :=
  cbv [mbind M_bind mret M_ret throw emit log updateStatus apiClient_send attach
       updateRoomState updatePlaybackState updateTimerState updateMessageState
       updateFlashingState set_socket set_handles get_world];
  proj_m.

(** The same for a long program: with the world taken apart every
    projection reduces on the spot. *)
Ltac run_long w :=
  destruct w;
  cbv [mbind M_bind mret M_ret throw emit log updateStatus apiClient_send attach
       updateRoomState updatePlaybackState updateTimerState updateMessageState
       updateFlashingState set_socket set_handles get_world
       trace socket handles pending next_promise];
  cbn [fst snd].

Ltac norm_trace := rewrite <- ?app_assoc; cbn [app].

Lemma since_app w w' d : trace w' = trace w ++ d → since w w' = d.
Proof. intros H. unfold since. rewrite H. apply drop_app_length. Qed.

Lemma since_record w s hs pd np d : since w (mkWorld s hs pd np (trace w ++ d)) = d.
Proof. by apply since_app. Qed.

Lemma footprint_refl w : footprint w w [].
Proof. unfold footprint. by rewrite app_nil_r. Qed.

Lemma footprint_trans w w1 w2 d1 d2 :
  footprint w w1 d1 → footprint w1 w2 d2 → footprint w w2 (d1 ++ d2).
Proof.
  intros (S1 & H1 & T1) (S2 & H2 & T2). unfold footprint.
  rewrite S2, S1, H2, H1, T2, T1. by rewrite app_assoc.
Qed.

Lemma statuses_app d1 d2 : statuses (d1 ++ d2) = statuses d1 ++ statuses d2.
Proof. apply omap_app. Qed.

Lemma background_statuses d : forallb background_call d = true → statuses d = [].
Proof.
  induction d as [|e d IH]; [done|]. cbn [forallb]. intros [He Hd]%andb_true_iff.
  destruct e; try discriminate He; by apply IH.
Qed.

Lemma live_handles_app tr d : live_handles (tr ++ d) = foldl live_step (live_handles tr) d.
Proof. unfold live_handles. apply foldl_app. Qed.

Lemma background_live tr d :
  forallb (λ e, negb (transport_call e)) d = true → live_handles (tr ++ d) = live_handles tr.
Proof.
  rewrite live_handles_app. generalize (live_handles tr) as s.
  induction d as [|e d IH]; [done|]. cbn [forallb foldl]. intros s [He Hd]%andb_true_iff.
  rewrite IH by done. by destruct e.
Qed.

(** Callbacks *)
Ltac solve_footprint :=
  run_m; norm_trace;
  first [ exists []; split; [apply footprint_refl | reflexivity]
        | eexists; split; [split_and!; reflexivity | reflexivity] ].

Lemma run_then_footprint k v w :
  ∃ d, footprint w (capture (run_then k v) w).2 d ∧ forallb background_call d = true.
Proof.
  unfold capture.
  destruct k; cbn [run_then]; unfold room_then, status_then, timer_guard, timer_then,
    getTimerAndUpdateState, destructure.
  - destruct (object_coercible v); [destruct (object_coercible (get_prop v F_data))|];
      solve_footprint.
  - destruct (object_coercible v); [destruct (object_coercible (get_prop v F_data))|];
      solve_footprint.
  - destruct (truthy v); cbn [negb]; solve_footprint.
  - destruct (object_coercible v); [destruct (object_coercible (get_prop v F_data))|];
      solve_footprint.
Qed.

Lemma run_catch_footprint k e w :
  ∃ d, footprint w (capture (run_catch k e) w).2 d ∧ forallb background_call d = true.
Proof. destruct k. unfold capture, run_catch, log_error. solve_footprint. Qed.

Lemma capture_ret m w : ∃ o, (capture m w).1 = Ret o.
Proof. unfold capture. destruct (m w) as [[v|e] w']; eauto. Qed.

Lemma run_chain_footprint stages : ∀ o w,
  ∃ d, footprint w (run_chain stages o w).2 d ∧ forallb background_call d = true.
Proof.
  induction stages as [|st rest IH]; intros o w.
  - exists []. split; [apply footprint_refl | done].
  - destruct st as [k|k], o as [v|e]; cbn [run_chain]; try apply IH.
    + destruct (run_then_footprint k v w) as (d1 & F1 & B1).
      destruct (capture_ret (run_then k v) w) as [o' Ho'].
      unfold mbind, M_bind. destruct (capture (run_then k v) w) as [r w1].
      cbn in Ho', F1. subst r.
      destruct (IH o' w1) as (d2 & F2 & B2).
      exists (d1 ++ d2). split; [by eapply footprint_trans|].
      by rewrite forallb_app, B1, B2.
    + destruct (run_catch_footprint k e w) as (d1 & F1 & B1).
      destruct (capture_ret (run_catch k e) w) as [o' Ho'].
      unfold mbind, M_bind. destruct (capture (run_catch k e) w) as [r w1].
      cbn in Ho', F1. subst r.
      destruct (IH o' w1) as (d2 & F2 & B2).
      exists (d1 ++ d2). split; [by eapply footprint_trans|].
      by rewrite forallb_app, B1, B2.
Qed.

Lemma run_chain_ret stages : ∀ o w, ∃ o', (run_chain stages o w).1 = Ret o'.
Proof.
  induction stages as [|st rest IH]; intros o w; [by eexists|].
  destruct st as [k|k], o as [v|e]; cbn [run_chain]; try apply IH.
  - destruct (capture_ret (run_then k v) w) as [o' Ho'].
    unfold mbind, M_bind. destruct (capture (run_then k v) w) as [r w1].
    cbn in Ho'. subst r. apply IH.
  - destruct (capture_ret (run_catch k e) w) as [o' Ho'].
    unfold mbind, M_bind. destruct (capture (run_catch k e) w) as [r w1].
    cbn in Ho'. subst r. apply IH.
Qed.

(** Settling a promise never throws, leaves the sockets alone and
    reports no status. *)
Lemma settle_footprint p o w :
  (settle p o w).1 = Ret ()
  ∧ ∃ d, footprint w (settle p o w).2 d ∧ forallb background_call d = true.
Proof.
  unfold settle. destruct (pending w !! p) as [stages|].
  2:{ split; [done|]. exists []. split; [apply footprint_refl | done]. }
  set (w0 := mkWorld _ _ _ _ _).
  destruct (run_chain_footprint stages o w0) as (d & (S1 & H1 & T1) & B).
  destruct (run_chain_ret stages o w0) as [o' Ho'].
  unfold mbind, M_bind. destruct (run_chain stages o w0) as [r w1].
  cbn in Ho', S1, H1, T1. subst r. destruct o' as [v|e]; run_m.
  - split; [done|]. exists d. by split.
  - split; [done|]. exists (d ++ [EUnhandledRejection e]). split.
    + unfold footprint; cbn. rewrite T1. by rewrite app_assoc.
    + by rewrite forallb_app, B.
Qed.

(** Listeners *)

Ltac unfold_handlers :=
  cbn [handler];
  unfold on_connect, bootstrap, on_connect_error, on_disconnect, on_error,
    on_reconnect_attempt, on_reconnect, on_reconnect_failed, on_manager_error,
    on_playback_status, on_room, on_message, on_flash, getTimerAndUpdateState,
    destructure.

Lemma handler_footprint inst s w :
  ∃ d, footprint w (handler inst s w).2 d
       ∧ forallb (λ e, negb (transport_call e)) d = true
       ∧ statuses d = option_list (spec_transition s).
Proof.
  destruct s as [| | reason | | | | | |ev payload]; unfold_handlers; cbn [spec_transition].
  3:{ destruct (String.eqb_spec reason "io client disconnect") as [->|Hne].
      - exists []. split; [apply footprint_refl | done].
      - rewrite decide_False by done. run_m; norm_trace.
        eexists; split; [split_and!; reflexivity | done]. }
  all: try (run_m; norm_trace; eexists; split; [split_and!; reflexivity | done]).
  destruct ev; destruct (object_coercible payload);
    run_m; norm_trace; eexists; (split; [split_and!; reflexivity | done]).
Qed.

(** Of the twelve listeners exactly the one registered on the channel of
    the signal runs. *)
Lemma run_listeners_registered inst s w :
  run_listeners (listeners_of inst) s w = handler inst s w.
Proof.
  unfold listeners_of. cbn [map run_listeners]. unfold invoke. cbn [l_channel l_instance].
  destruct s as [| | | | | | | |[] payload]; cbn [signal_channel];
    repeat match goal with
    | |- context [decide (?a = ?b)] =>
        first [ rewrite (decide_True (P := a = b)) by reflexivity
              | rewrite (decide_False (P := a = b)) by discriminate ]
    end;
    unfold mbind, M_bind, mret, M_ret;
    match goal with |- context [handler ?i ?s ?w] => by destruct (handler i s w) as [[[]|e] w'] end.
Qed.

(** The listener of lines 125-129 swallows the close asked for by the
    module itself, however many listeners the socket has. *)
Lemma run_listeners_intentional ls w :
  run_listeners ls (SigDisconnect "io client disconnect") w = (Ret (), w).
Proof.
  induction ls as [|[c inst] ls IH]; [done|]. cbn [run_listeners].
  unfold mbind, M_bind, invoke. cbn [l_channel l_instance signal_channel].
  destruct (decide (c = OnDisconnect)); [cbn [handler]; unfold on_disconnect; cbn|]; apply IH.
Qed.

(** Transport *)

Lemma socketStop_run w : socketStop w = (Ret (), stopped w).
Proof.
  unfold socketStop, stopped. destruct (socket w) as [h|] eqn:Hs; [|done].
  unfold socket_disconnect. run_m.
  destruct (handles w !! h) as [hd|] eqn:Hh; run_m; [|by rewrite Hs].
  rewrite Hs. destruct (h_connected hd); [|done].
  unfold emit_signal. cbn [handles].
  rewrite list_lookup_insert_eq by (by eapply lookup_lt_Some).
  cbn [set_flags h_listeners]. by rewrite run_listeners_intentional.
Qed.

Lemma stopped_length w : length (handles (stopped w)) = length (handles w).
Proof.
  unfold stopped. destruct (socket w) as [h|]; [|done]. cbn.
  destruct (handles w !! h); [by rewrite length_insert | done].
Qed.

Lemma stopped_pending w : pending (stopped w) = pending w.
Proof. unfold stopped. by destruct (socket w). Qed.

Lemma stopped_next_promise w : next_promise (stopped w) = next_promise w.
Proof. unfold stopped. by destruct (socket w). Qed.

Lemma alter_last {A} (f : A → A) (l : list A) (x : A) :
  alter f (length l) (l ++ [x]) = l ++ [f x].
Proof. rewrite <- (Nat.add_0_r (length l)) at 1. by rewrite alter_app_r. Qed.

Lemma socketStart_run new_URL inst cfg url w :
  config inst = Some cfg → new_URL (apiUrl cfg) = Some url →
  socketStart new_URL (Some inst) w = (Ret (), started inst cfg url w).
Proof.
  intros Hc Hu. unfold socketStart, parse_url, started, start_options, listeners_of.
  cbn [map]. rewrite Hc, Hu.
  unfold mbind at 1, M_bind at 1. cbv [mret M_ret].
  unfold mbind at 1, M_bind at 1. rewrite socketStop_run.
  rewrite <- (stopped_length w), <- (stopped_pending w), <- (stopped_next_promise w).
  unfold io, socket_on, socket_connect. generalize (stopped w) as w1. intros w1.
  run_long w1.
  rewrite !alter_last. cbn [add_listener h_origin h_opts h_listeners h_live h_connected app].
  norm_trace. reflexivity.
Qed.

Lemma deliver_live h inst s w hd :
  handles w !! h = Some hd → h_live hd = true → h_listeners hd = listeners_of inst →
  deliver h s w =
  handler inst s
    (mkWorld (socket w)
             (<[h := set_flags true (signal_connected s (h_connected hd)) hd]> (handles w))
             (pending w) (next_promise w) (trace w)).
Proof.
  intros Hh Hl Hls. unfold deliver. rewrite Hh, Hl. run_m.
  unfold emit_signal. cbn [handles].
  rewrite list_lookup_insert_eq by (by eapply lookup_lt_Some).
  cbn [set_flags h_listeners]. rewrite Hls. apply run_listeners_registered.
Qed.

(** Runs on one socket *)

Lemma started_handle inst cfg url w :
  handles (started inst cfg url w) !! length (handles w)
  = Some (mkHandle (origin url) (start_options cfg url) (listeners_of inst) true false).
Proof.
  unfold started. cbn [handles]. rewrite <- (stopped_length w). by apply list_lookup_middle.
Qed.

Lemma started_listening inst cfg url w :
  listening (length (handles w)) inst (started inst cfg url w).
Proof. eexists. split; [apply started_handle | done]. Qed.

Lemma perform_on_socket new_URL h inst a w :
  listening h inst w → on_socket h a →
  listening h inst (perform new_URL a w).2
  ∧ ∃ d, trace (perform new_URL a w).2 = trace w ++ d
         ∧ statuses d = option_list (spec_status a).
Proof.
  intros (hd & Hh & Hl & Hls) Ha. destruct a as [| |h' s|p o]; try done; cbn in Ha.
  - subst h'. cbn [perform spec_status]. rewrite (deliver_live _ inst _ _ hd) by done.
    set (w1 := mkWorld _ _ _ _ _).
    destruct (handler_footprint inst s w1) as (d & (S1 & H1 & T1) & _ & St).
    split.
    + eexists. rewrite H1. unfold w1. cbn [handles]. split.
      * apply list_lookup_insert_eq. by eapply lookup_lt_Some.
      * done.
    + exists d. by split.
  - cbn [perform spec_status]. destruct (settle_footprint p o w) as (_ & d & (S1 & H1 & T1) & B).
    split.
    + exists hd. by rewrite H1.
    + exists d. split; [done|]. by apply background_statuses.
Qed.

Lemma exec_on_socket new_URL h inst acts : ∀ w,
  listening h inst w → Forall (on_socket h) acts →
  ∃ d, trace (exec new_URL acts w) = trace w ++ d ∧ statuses d = omap spec_status acts.
Proof.
  induction acts as [|a acts IH]; intros w Hw Hacts.
  - exists []. by rewrite app_nil_r.
  - apply Forall_cons in Hacts as [Ha Hacts].
    destruct (perform_on_socket new_URL h inst a w Hw Ha) as (Hw1 & d1 & T1 & S1).
    destruct (IH _ Hw1 Hacts) as (d2 & T2 & S2).
    exists (d1 ++ d2). cbn [exec foldl]. unfold exec in T2. rewrite T2, T1. split.
    + by rewrite app_assoc.
    + rewrite statuses_app, S1, S2. cbn. by destruct (spec_status a).
Qed.

Lemma stopped_trace w :
  ∃ d, trace (stopped w) = trace w ++ d ∧ statuses d = [].
Proof.
  unfold stopped. destruct (socket w) as [h|].
  - by eexists.
  - exists []. by rewrite app_nil_r.
Qed.

Lemma start_run_trace new_URL inst cfg url w acts :
  config inst = Some cfg → new_URL (apiUrl cfg) = Some url →
  Forall (on_socket (length (handles w))) acts →
  ∃ d, trace (exec new_URL (CallStart (Some inst) :: acts) w) = trace w ++ d
       ∧ statuses d = Connecting :: omap spec_status acts.
Proof.
  intros Hc Hu Hacts. cbn [exec foldl perform].
  rewrite (socketStart_run _ _ cfg url) by done. cbn [snd].
  destruct (exec_on_socket new_URL _ inst acts _ (started_listening inst cfg url w) Hacts)
    as (d & T & S).
  unfold exec in T. destruct (stopped_trace w) as (d0 & T0 & S0).
  eexists. split.
  - rewrite T. unfold started. cbn [trace]. rewrite T0, <- !app_assoc. reflexivity.
  - by rewrite !statuses_app, S0, S.
Qed.

(** C1: a run on the socket built by [socketStart] reports [Connecting]
    and then, signal by signal, exactly the status the transition table of
    section 4.1 gives (nothing for a signal the table does not list, nothing
    for a settled promise).  A disconnect with the reason of a close asked
    for by the client reports nothing: connect followed by that disconnect,
    raised by the transport or by [socketStop] itself, reports exactly
    [Connecting; Ok]. *)
Theorem status_sequence_matches_table new_URL inst cfg url w acts :
  config inst = Some cfg → new_URL (apiUrl cfg) = Some url →
  let h := length (handles w) in
  Forall (on_socket h) acts →
  statuses (since w (exec new_URL (CallStart (Some inst) :: acts) w))
    = Connecting :: omap spec_status acts
  ∧ statuses (since w (exec new_URL [CallStart (Some inst); Transport h SigConnect;
                                     Transport h (SigDisconnect "io client disconnect")] w))
    = [Connecting; Ok]
  ∧ statuses (since w (exec new_URL [CallStart (Some inst); Transport h SigConnect;
                                     CallStop] w))
    = [Connecting; Ok].
Proof.
  intros Hc Hu h Hacts. split_and!.
  - destruct (start_run_trace new_URL inst cfg url w acts Hc Hu Hacts) as (d & T & S).
    by rewrite (since_app _ _ _ T).
  - destruct (start_run_trace new_URL inst cfg url w
                [Transport h SigConnect; Transport h (SigDisconnect "io client disconnect")]
                Hc Hu) as (d & T & S); [by repeat constructor|].
    rewrite (since_app _ _ _ T), S. cbn. by rewrite decide_True.
  - destruct (start_run_trace new_URL inst cfg url w [Transport h SigConnect] Hc Hu)
      as (d & T & S); [by repeat constructor|].
    change (exec new_URL [CallStart (Some inst); Transport h SigConnect; CallStop] w)
      with (socketStop (exec new_URL [CallStart (Some inst); Transport h SigConnect] w)).2.
    rewrite socketStop_run. cbn [snd].
    destruct (stopped_trace (exec new_URL [CallStart (Some inst); Transport h SigConnect] w))
      as (d0 & T0 & S0).
    erewrite since_app by (by rewrite T0, T, <- app_assoc).
    by rewrite statuses_app, S, S0.
Qed.

(** One live socket *)

Lemma prefix_app_cases {A} (p l d : list A) :
  p `prefix_of` l ++ d → p `prefix_of` l ∨ ∃ d', p = l ++ d' ∧ d' `prefix_of` d.
Proof.
  revert p. induction l as [|x l IH]; intros p Hp.
  - right. by exists p.
  - destruct p as [|y p]; [left; apply prefix_nil|].
    cbn in Hp. pose proof (prefix_cons_inv_1 _ _ _ _ Hp) as ->.
    apply prefix_cons_inv_2 in Hp. destruct (IH _ Hp) as [H|(d' & -> & H)].
    + left. by apply prefix_cons.
    + right. by exists d'.
Qed.

Lemma at_most_one_live_app tr d :
  at_most_one_live tr →
  (∀ d', d' `prefix_of` d → (size (live_handles (tr ++ d')) ≤ 1)%nat) →
  at_most_one_live (tr ++ d).
Proof.
  intros Htr Hd p Hp. destruct (prefix_app_cases _ _ _ Hp) as [H|(d' & -> & H)]; auto.
Qed.

Lemma forallb_prefix {A} (f : A → bool) (p l : list A) :
  p `prefix_of` l → forallb f l = true → forallb f p = true.
Proof. intros [k ->]. rewrite forallb_app. by intros [? ?]%andb_true_iff. Qed.

Lemma at_most_one_live_background tr d :
  at_most_one_live tr → forallb (λ e, negb (transport_call e)) d = true →
  at_most_one_live (tr ++ d).
Proof.
  intros Htr Hd. apply at_most_one_live_app; [done|]. intros d' Hd'.
  rewrite background_live by (by eapply forallb_prefix). by apply Htr.
Qed.

Lemma background_no_transport d :
  forallb background_call d = true → forallb (λ e, negb (transport_call e)) d = true.
Proof.
  induction d as [|e d IH]; [done|]. cbn [forallb]. intros [He Hd]%andb_true_iff.
  rewrite IH by done. by destruct e.
Qed.

(** A step that leaves the sockets alone and calls nothing on the
    transport keeps the invariant. *)
Lemma consistent_footprint w w' d :
  consistent w → footprint w w' d → forallb (λ e, negb (transport_call e)) d = true →
  consistent w'.
Proof.
  intros (I1 & I2 & I3 & I4) (S1 & H1 & T1) Hd. unfold consistent.
  rewrite S1, H1, T1, background_live by done. split_and!; try done.
  by apply at_most_one_live_background.
Qed.

Lemma consistent_init : consistent init_world.
Proof.
  split_and!; cbn.
  - intros h. split; [set_solver|]. by intros (hd & ? & _).
  - set_solver.
  - done.
  - intros p ->%prefix_nil_inv. cbn. rewrite size_empty. lia.
Qed.

Lemma consistent_stopped w :
  consistent w → consistent (stopped w) ∧ live_handles (trace (stopped w)) = ∅.
Proof.
  intros Hw. pose proof Hw as (I1 & I2 & I3 & I4). unfold stopped.
  destruct (socket w) as [h|] eqn:Hs.
  2:{ split; [done|]. apply set_eq. intros h. split; [|set_solver]. intros Hh%I2. congruence. }
  assert (live_handles (trace w ++ [ESocketDisconnect h]) = ∅) as Hlive.
  { rewrite live_handles_app. cbn. apply set_eq. intros h'. split; [|set_solver].
    intros [Hin Hne]%elem_of_difference. apply I2 in Hin. set_solver. }
  split; [|done]. unfold consistent. cbn [trace socket handles]. rewrite Hlive. split_and!.
  - intros h'. split; [set_solver|]. intros (hd' & Hh' & Hl').
    destruct (handles w !! h) as [hd|] eqn:Hh.
    + destruct (decide (h' = h)) as [->|Hne].
      * rewrite list_lookup_insert_eq in Hh' by (by eapply lookup_lt_Some).
        by simplify_eq.
      * rewrite list_lookup_insert_ne in Hh' by done.
        assert (h' ∈ live_handles (trace w)) as Hin%I2 by (apply I1; eauto). congruence.
    + assert (h' ∈ live_handles (trace w)) as Hin%I2 by (apply I1; eauto).
      congruence.
  - set_solver.
  - intros h' hd' Hh'. destruct (handles w !! h) as [hd|] eqn:Hh; [|by eapply I3].
    destruct (decide (h' = h)) as [->|Hne].
    + rewrite list_lookup_insert_eq in Hh' by (by eapply lookup_lt_Some).
      injection Hh' as <-. cbn [set_flags h_listeners]. by eapply I3.
    + rewrite list_lookup_insert_ne in Hh' by done. by eapply I3.
  - apply at_most_one_live_app; [done|]. intros d' Hd'.
    destruct d' as [|e d']; [rewrite app_nil_r; by apply I4|].
    pose proof (prefix_cons_inv_1 _ _ _ _ Hd') as ->.
    apply prefix_cons_inv_2, prefix_nil_inv in Hd' as ->.
    rewrite Hlive, size_empty. lia.
Qed.

Lemma consistent_started inst cfg url w :
  consistent w →
  consistent (started inst cfg url w)
  ∧ live_handles (trace (started inst cfg url w)) = {[ length (handles w) ]}.
Proof.
  intros Hw. destruct (consistent_stopped w Hw) as [(I1 & I2 & I3 & I4) Hlive].
  set (h := length (handles w)).
  assert (length (handles (stopped w)) = h) as Hlen by apply stopped_length.
  assert (live_handles (trace (started inst cfg url w)) = {[ h ]}) as Hlive'.
  { unfold started. cbn [trace]. rewrite live_handles_app, Hlive. cbn. fold h. set_solver. }
  split; [|done]. unfold consistent. rewrite Hlive'. unfold started. cbn [socket handles trace].
  fold h. split_and!.
  - intros h'. rewrite elem_of_singleton. split.
    + intros ->. eexists. split; [rewrite <- Hlen; by apply list_lookup_middle | done].
    + intros (hd' & Hh' & Hl'). destruct (decide (h' = h)) as [|Hne]; [done|].
      assert (h' < h).
      { apply lookup_lt_Some in Hh'. rewrite length_app, Hlen in Hh'. cbn in Hh'. lia. }
      rewrite lookup_app_l in Hh' by lia.
      assert (h' ∈ live_handles (trace (stopped w))) as Hin by (apply I1; eauto).
      rewrite Hlive in Hin. set_solver.
  - by intros h' ->%elem_of_singleton.
  - intros h' hd' Hh'. destruct (decide (h' < h)) as [Hlt|Hge].
    + rewrite lookup_app_l in Hh' by lia. by eapply I3.
    + rewrite lookup_app_r in Hh' by lia. rewrite Hlen in Hh'.
      destruct (h' - h) as [|n]; [|by destruct n].
      cbn in Hh'. simplify_eq. by exists inst.
  - apply at_most_one_live_app; [done|]. intros d' Hd'.
    rewrite live_handles_app, Hlive.
    repeat (destruct d' as [|? d'];
            [ cbn; rewrite ?size_empty, ?union_empty_r_L, ?size_singleton; lia
            | pose proof (prefix_cons_inv_1 _ _ _ _ Hd') as ->;
              apply prefix_cons_inv_2 in Hd' ]).
    apply prefix_nil_inv in Hd' as ->. cbn.
    replace ({[h]} ∪ ({[h]} ∪ ∅) : gset nat) with ({[h]} : gset nat) by set_solver.
    rewrite size_singleton. lia.
Qed.

Lemma consistent_deliver h s w : consistent w → consistent (deliver h s w).2.
Proof.
  intros Hw. pose proof Hw as (I1 & I2 & I3 & I4). unfold deliver.
  destruct (handles w !! h) as [hd|] eqn:Hh; [|done].
  destruct (h_live hd) eqn:Hl; [|done].
  destruct (I3 _ _ Hh) as [inst Hls].
  pose proof (deliver_live h inst s w hd Hh Hl Hls) as Hd.
  unfold deliver in Hd. rewrite Hh, Hl in Hd. rewrite Hd. clear Hd.
  set (w1 := mkWorld _ _ _ _ _).
  destruct (handler_footprint inst s w1) as (d & F & Hd & _).
  eapply consistent_footprint; [|done..].
  unfold consistent, w1. cbn [trace socket handles]. split_and!; try done.
  - intros h'. rewrite I1. destruct (decide (h' = h)) as [->|Hne].
    + rewrite list_lookup_insert_eq by (by eapply lookup_lt_Some). naive_solver.
    + by rewrite list_lookup_insert_ne.
  - intros h' hd' Hh'. destruct (decide (h' = h)) as [->|Hne].
    + rewrite list_lookup_insert_eq in Hh' by (by eapply lookup_lt_Some).
      simplify_eq. by exists inst.
    + rewrite list_lookup_insert_ne in Hh' by done. by eapply I3.
Qed.

Lemma socketStart_cases new_URL instance w :
  (socketStart new_URL instance w).2 = w
  ∨ ∃ inst cfg url, instance = Some inst ∧ config inst = Some cfg
      ∧ new_URL (apiUrl cfg) = Some url
      ∧ socketStart new_URL instance w = (Ret (), started inst cfg url w).
Proof.
  destruct instance as [inst|]; [|by left].
  destruct (config inst) as [cfg|] eqn:Hc; [|left; unfold socketStart; by rewrite Hc].
  destruct (new_URL (apiUrl cfg)) as [url|] eqn:Hu.
  - right. exists inst, cfg, url. split_and!; try done. by apply socketStart_run.
  - left. unfold socketStart, parse_url. by rewrite Hc, Hu.
Qed.

Lemma consistent_perform new_URL a w : consistent w → consistent (perform new_URL a w).2.
Proof.
  intros Hw. destruct a as [instance| |h s|p o]; cbn [perform].
  - destruct (socketStart_cases new_URL instance w) as [->|(inst & cfg & url & _ & _ & _ & ->)];
      [done|]. by apply consistent_started.
  - rewrite socketStop_run. by apply consistent_stopped.
  - by apply consistent_deliver.
  - destruct (settle_footprint p o w) as (_ & d & F & B).
    eapply consistent_footprint; [done..|]. by apply background_no_transport.
Qed.

Lemma consistent_exec new_URL actions : ∀ w,
  consistent w → consistent (exec new_URL actions w).
Proof.
  induction actions as [|a actions IH]; intros w Hw; [done|].
  cbn [exec foldl]. apply IH. by apply consistent_perform.
Qed.

(** Explicit runs *)

Ltac run_chain_m :=
  repeat progress
    (cbn [run_chain run_then run_catch negb];
     unfold capture, room_then, status_then, timer_guard, timer_then, log_error,
       getTimerAndUpdateState, destructure;
     run_m).

Lemma on_connect_run inst w :
  let p := next_promise w in
  on_connect inst w =
  (Ret (), mkWorld (socket w) (handles w)
             (<[S p := [SThen KStatus; SThen (KTimerGuard inst); SCatch (KLogError inst)]]>
                (<[p := [SThen KRoom; SCatch (KLogError inst)]]> (pending w)))
             (S (S p))
             (trace w ++ [ELog (iid inst) "info" "Connected!"; EUpdateStatus (iid inst) Ok;
                          ESend (iid inst) get_room ∅ p;
                          ESend (iid inst) get_status ∅ (S p)])).
Proof. unfold on_connect, bootstrap. run_m. norm_trace. reflexivity. Qed.

Lemma on_playback_status_run inst payload w :
  object_coercible payload = true →
  let p := next_promise w in
  on_playback_status inst payload w =
  (Ret (), mkWorld (socket w) (handles w)
             (<[p := [SThen KTimer; SCatch (KLogError inst)]]> (pending w))
             (S p)
             (trace w ++ [ELog (iid inst) "debug" "Event: playback_status";
                          EUpdatePlaybackState (playback_partial payload);
                          ESend (iid inst) get_timer
                                {[ "timer_id" := get_prop payload F_timer_id ]} p])).
Proof.
  intros H. unfold on_playback_status, getTimerAndUpdateState, destructure. rewrite H.
  run_m. norm_trace. reflexivity.
Qed.

(** A rejection skips every [.then] and ends in the [.catch] that logs
    it. *)
Lemma settle_rejected_logged p e w inst thens :
  pending w !! p = Some (map SThen thens ++ [SCatch (KLogError inst)]) →
  settle p (Rejected e) w =
  (Ret (), mkWorld (socket w) (handles w) (delete p (pending w)) (next_promise w)
             (trace w ++ [ELog (iid inst) "error" (error_toString e)])).
Proof.
  intros H. unfold settle. rewrite H. unfold mbind at 1, M_bind at 1.
  set (w0 := mkWorld _ _ _ _ (trace w)).
  assert (run_chain (map SThen thens ++ [SCatch (KLogError inst)]) (Rejected e) w0
          = run_chain [SCatch (KLogError inst)] (Rejected e) w0) as ->.
  { clear H. induction thens as [|k thens IH]; [done|]. cbn [map app run_chain]. apply IH. }
  unfold w0. run_chain_m. reflexivity.
Qed.

Lemma settle_timer_fulfilled p response w inst :
  pending w !! p = Some [SThen KTimer; SCatch (KLogError inst)] →
  object_coercible response = true →
  object_coercible (get_prop response F_data) = true →
  let data := get_prop response F_data in
  settle p (Fulfilled response) w =
  (Ret (), mkWorld (socket w) (handles w) (delete p (pending w)) (next_promise w)
             (trace w ++ [EUpdateTimerState
                            {[ "name" := get_prop data F_name;
                               "speaker" := get_prop data F_speaker;
                               "notes" := get_prop data F_notes;
                               "duration" := get_prop data F_duration;
                               "wrap_up_yellow" := get_prop data F_wrap_up_yellow;
                               "wrap_up_red" := get_prop data F_wrap_up_red ]}])).
Proof.
  intros H H1 H2. unfold settle. rewrite H. run_chain_m. rewrite H1, H2. run_chain_m.
  reflexivity.
Qed.

Lemma settle_status_fulfilled p response w inst :
  pending w !! p = Some [SThen KStatus; SThen (KTimerGuard inst); SCatch (KLogError inst)] →
  object_coercible response = true →
  object_coercible (get_prop response F_data) = true →
  let data := get_prop response F_data in
  let timer_id := get_prop data F_timer_id in
  let n := next_promise w in
  settle p (Fulfilled response) w =
  (Ret (),
   if truthy timer_id then
     mkWorld (socket w) (handles w)
       (<[n := [SThen KTimer; SCatch (KLogError inst)]]> (delete p (pending w))) (S n)
       (trace w ++ [EUpdatePlaybackState (playback_partial data);
                    ESend (iid inst) get_timer {[ "timer_id" := timer_id ]} n])
   else
     mkWorld (socket w) (handles w) (delete p (pending w)) n
       (trace w ++ [EUpdatePlaybackState (playback_partial data)])).
Proof.
  intros H H1 H2. cbv zeta. unfold settle. rewrite H. run_chain_m. rewrite H1, H2.
  run_chain_m. destruct (truthy _); run_chain_m; norm_trace; reflexivity.
Qed.

(** A [get_status] response that cannot be destructured is logged; the
    guard of lines 111-114 is not reached. *)
Lemma settle_status_malformed p response w inst :
  pending w !! p = Some [SThen KStatus; SThen (KTimerGuard inst); SCatch (KLogError inst)] →
  object_coercible response && object_coercible (get_prop response F_data) = false →
  ∃ e, err_name e = "TypeError" ∧
  settle p (Fulfilled response) w =
  (Ret (), mkWorld (socket w) (handles w) (delete p (pending w)) (next_promise w)
             (trace w ++ [ELog (iid inst) "error" (error_toString e)])).
Proof.
  intros H Hb. unfold settle. rewrite H. run_chain_m.
  destruct (object_coercible response); cbn in Hb; [rewrite Hb|]; run_chain_m;
    (eexists (mkError "TypeError" _); split; reflexivity).
Qed.

Lemma truthy_prop_coercible v f : truthy (get_prop v f) = true → object_coercible v = true.
Proof. by destruct v. Qed.

Lemma prop_coercible v f u : get_prop v f = u → u ≠ JUndefined → object_coercible v = true.
Proof. intros <- H. by destruct v. Qed.

(** After [socketStart] *)

(** A run on the socket that [socketStart] built leaves it live, with
    its twelve listeners. *)
Lemma exec_listening new_URL h inst acts : ∀ w,
  listening h inst w → Forall (on_socket h) acts → listening h inst (exec new_URL acts w).
Proof.
  induction acts as [|a acts IH]; intros w Hw Hacts; [done|].
  apply Forall_cons in Hacts as [Ha Hacts]. cbn [exec foldl]. apply IH; [|done].
  by apply perform_on_socket.
Qed.

Lemma run_listening new_URL inst cfg url w0 acts :
  config inst = Some cfg → new_URL (apiUrl cfg) = Some url →
  Forall (on_socket (length (handles w0))) acts →
  listening (length (handles w0)) inst (exec new_URL (CallStart (Some inst) :: acts) w0).
Proof.
  intros Hc Hu Hacts. cbn [exec foldl perform].
  rewrite (socketStart_run _ _ cfg url) by done. cbn [snd].
  apply exec_listening; [apply started_listening | done].
Qed.

(** On such a socket a signal runs the listener of its channel, in a
    world that differs from the one before in the flags of that socket
    only. *)
Lemma deliver_listening h inst s w :
  listening h inst w →
  ∃ w', deliver h s w = handler inst s w'
        ∧ socket w' = socket w ∧ pending w' = pending w
        ∧ next_promise w' = next_promise w ∧ trace w' = trace w.
Proof.
  intros (hd & Hh & Hl & Hls). rewrite (deliver_live _ inst _ _ hd) by done.
  eexists. split; [reflexivity|]. done.
Qed.

(** C3: in the bootstrap started by a connect, at any moment of a
    connection, when the [get_status] request resolves with a falsy
    [timer_id] ([null] among them) no [get_timer] request leaves; when it
    resolves with a truthy one, such as ["T1"], exactly one leaves and its
    parameters are [{timer_id}]. *)
Theorem bootstrap_timer_guard new_URL inst cfg url w0 acts response :
  config inst = Some cfg → new_URL (apiUrl cfg) = Some url →
  let h := length (handles w0) in
  Forall (on_socket h) acts →
  let w := exec new_URL (CallStart (Some inst) :: acts) w0 in
  let w2 := (deliver h SigConnect w).2 in
  let q := S (next_promise w) in
  let chain := [SThen KStatus; SThen (KTimerGuard inst); SCatch (KLogError inst)] in
  let timer_id := get_prop (get_prop response F_data) F_timer_id in
  ESend (iid inst) get_status ∅ q ∈ since w w2
  ∧ pending w2 !! q = Some chain
  ∧ ∀ w', pending w' !! q = Some chain →
      let w3 := (settle q (Fulfilled response) w').2 in
      (truthy timer_id = false → requests get_timer (since w' w3) = [])
      ∧ (truthy timer_id = true →
           requests get_timer (since w' w3) = [ {[ "timer_id" := timer_id ]} ])
      ∧ (timer_id = JStr "T1" →
           requests get_timer (since w' w3) = [ {[ "timer_id" := JStr "T1" ]} ]).
Proof.
  intros Hc Hu h Hacts w w2 q chain timer_id.
  destruct (deliver_listening h inst SigConnect w) as (w1 & Hd & _ & Hp & Hn & Ht);
    [by eapply run_listening|].
  cbn [handler] in Hd. rewrite on_connect_run in Hd.
  split_and!.
  - erewrite since_app; [|unfold w2; rewrite Hd; cbn [snd trace]; by rewrite Ht].
    unfold q. rewrite Hn. set_solver.
  - unfold w2, q. rewrite Hd. cbn [snd pending]. rewrite Hn. apply lookup_insert_eq.
  - intros w' Hq w3.
    assert (truthy timer_id = false → requests get_timer (since w' w3) = []) as Hfalsy.
    { intros Hf. unfold w3.
      destruct (object_coercible response && object_coercible (get_prop response F_data))
        eqn:Hb.
      - apply andb_true_iff in Hb as [H1 H2].
        rewrite (settle_status_fulfilled _ _ _ inst) by done. cbn [snd].
        fold timer_id. rewrite Hf. by rewrite since_record.
      - destruct (settle_status_malformed _ _ _ inst Hq Hb) as (e & _ & ->). cbn [snd].
        by rewrite since_record. }
    assert (truthy timer_id = true →
            requests get_timer (since w' w3) = [ {[ "timer_id" := timer_id ]} ]) as Htruthy.
    { intros Hf. unfold w3.
      pose proof (truthy_prop_coercible _ _ Hf) as H2.
      assert (object_coercible response = true) as H1.
      { eapply prop_coercible; [reflexivity|]. intros E. by rewrite E in H2. }
      rewrite (settle_status_fulfilled _ _ _ inst) by done. cbn [snd].
      fold timer_id. rewrite Hf. by rewrite since_record. }
    split_and!; try done.
    intros E. rewrite <- E. apply Htruthy. by rewrite E.
Qed.

(** C4: at any moment of a connection, a [playback_status] event whose
    [timer_id] is ["T2"] applies the playback snapshot, the five fields
    [currentTimerId], [isRunning], [kickoff], [deadline] and [lastStop]
    read from [timer_id], [running], [start], [finish] and [pause] of the
    payload, and sends [get_timer] with [{timer_id: "T2"}]; when that
    request rejects the error is logged, [updateTimerState] is not called
    then or later for this promise, nothing is thrown and no rejection is
    left unhandled. *)
Theorem playback_status_fetch_rejected new_URL inst cfg url w0 acts payload e :
  config inst = Some cfg → new_URL (apiUrl cfg) = Some url →
  let h := length (handles w0) in
  Forall (on_socket h) acts →
  get_prop payload F_timer_id = JStr "T2" →
  let w := exec new_URL (CallStart (Some inst) :: acts) w0 in
  let r2 := deliver h (SigEvent playback_status payload) w in
  let p := next_promise w in
  r2.1 = Ret ()
  ∧ since w r2.2 = [ELog (iid inst) "debug" "Event: playback_status";
                    EUpdatePlaybackState
                      {[ "currentTimerId" := JStr "T2";
                         "isRunning" := get_prop payload F_running;
                         "kickoff" := get_prop payload F_start;
                         "deadline" := get_prop payload F_finish;
                         "lastStop" := get_prop payload F_pause ]};
                    ESend (iid inst) get_timer {[ "timer_id" := JStr "T2" ]} p]
  ∧ pending r2.2 !! p = Some [SThen KTimer; SCatch (KLogError inst)]
  ∧ ∀ w', pending w' !! p = Some [SThen KTimer; SCatch (KLogError inst)] →
      let r3 := settle p (Rejected e) w' in
      r3.1 = Ret ()
      ∧ since w' r3.2 = [ELog (iid inst) "error" (error_toString e)]
      ∧ timer_updates (since w' r3.2) = []
      ∧ rejections (since w' r3.2) = []
      ∧ ∀ o, settle p o r3.2 = (Ret (), r3.2).
Proof.
  intros Hc Hu h Hacts Hid w r2 p.
  destruct (deliver_listening h inst (SigEvent playback_status payload) w)
    as (w1 & Hd & _ & Hp & Hn & Ht); [by eapply run_listening|].
  fold r2 in Hd. cbn [handler] in Hd.
  assert (object_coercible payload = true) as Hpay by (by eapply prop_coercible).
  rewrite on_playback_status_run in Hd by done. unfold playback_partial in Hd.
  rewrite Hid in Hd.
  rewrite Hd. cbn [fst snd pending]. unfold p. rewrite Hn. split_and!.
  - done.
  - apply since_app. cbn [trace]. by rewrite Ht.
  - apply lookup_insert_eq.
  - intros w' Hw'.
    rewrite (settle_rejected_logged _ _ _ inst [KTimer]) by done. cbn [fst snd].
    rewrite since_record. split_and!; try done.
    intros o. unfold settle. cbn [pending]. by rewrite lookup_delete_eq.
Qed.

(** C5: at any moment of a connection, the update that a [room] event
    hands to [updateRoomState] has the two fields [roomBlackout] and
    [roomFocus] and no other, taken from [blackout] and [focus_message] of
    the payload; merged into a store it leaves [roomId] and [roomName] as
    they were. *)
Theorem room_event_partial new_URL inst cfg url w0 acts payload store :
  config inst = Some cfg → new_URL (apiUrl cfg) = Some url →
  let h := length (handles w0) in
  Forall (on_socket h) acts →
  let w := exec new_URL (CallStart (Some inst) :: acts) w0 in
  let r := deliver h (SigEvent room payload) w in
  Forall (λ partial, dom partial = {[ "roomBlackout"; "roomFocus" ]}
                     ∧ merge_partial partial store !! "roomId" = store !! "roomId"
                     ∧ merge_partial partial store !! "roomName" = store !! "roomName")
         (room_updates (since w r.2))
  ∧ (object_coercible payload = true →
       r.1 = Ret ()
       ∧ room_updates (since w r.2)
         = [ {[ "roomBlackout" := get_prop payload F_blackout;
                "roomFocus" := get_prop payload F_focus_message ]} ]).
Proof.
  intros Hc Hu h Hacts w r.
  destruct (deliver_listening h inst (SigEvent room payload) w)
    as (w1 & Hd & _ & _ & _ & Ht); [by eapply run_listening|].
  fold r in Hd. cbn [handler] in Hd.
  unfold on_room, destructure in Hd. rewrite Hd.
  destruct (object_coercible payload); run_m; norm_trace;
    (erewrite since_app by (by rewrite Ht)); unfold room_updates; cbn [omap list_omap].
  - split; [|done]. constructor; [|done]. split_and!.
    + rewrite ?dom_insert_L, ?dom_singleton_L. set_solver.
    + unfold merge_partial. rewrite lookup_union_r; [done|]. by simplify_map_eq.
    + unfold merge_partial. rewrite lookup_union_r; [done|]. by simplify_map_eq.
  - split; [constructor | done].
Qed.



Lemma started_since inst cfg url w :
  since w (started inst cfg url w)
  = match socket w with Some h0 => [ESocketDisconnect h0] | None => [] end
    ++ [ELog (iid inst) "info" "Connecting to Stagetimer.io...";
        EUpdateStatus (iid inst) Connecting;
        EIo (length (handles w)) (origin url) (start_options cfg url);
        ESocketConnect (length (handles w))].
Proof.
  apply since_app. unfold started, stopped. cbn [trace].
  destruct (socket w); cbn [trace app]; by rewrite <- ?app_assoc.
Qed.

(** C7: the socket built by [socketStart] is configured with five
    reconnection attempts and a reconnection delay of at most 10000 ms, ten
    seconds; when the manager gives up, at any moment of the connection,
    the listener logs, reports [ConnectionFailure] and does nothing else:
    no call on the transport, no request, the module variable and the live
    sockets as before. *)
Theorem bounded_reconnection new_URL inst cfg url w0 acts :
  config inst = Some cfg → new_URL (apiUrl cfg) = Some url →
  let h := length (handles w0) in
  Forall (on_socket h) acts →
  let w1 := (socketStart new_URL (Some inst) w0).2 in
  let w := exec new_URL (CallStart (Some inst) :: acts) w0 in
  let r := deliver h SigReconnectFailed w in
  socket w1 = Some h
  ∧ (∃ hd, handles w1 !! h = Some hd
           ∧ EIo h (origin url) (h_opts hd) ∈ since w0 w1
           ∧ reconnectionAttempts (h_opts hd) = 5%N
           ∧ reconnectionDelayMax (h_opts hd) = (10 * 1000)%N)
  ∧ r.1 = Ret ()
  ∧ since w r.2 = [ELog (iid inst) "error" "Unable to connect to Stagetimer.io!";
                   EUpdateStatus (iid inst) ConnectionFailure]
  ∧ socket r.2 = socket w
  ∧ pending r.2 = pending w
  ∧ live_handles (trace r.2) = live_handles (trace w).
Proof.
  intros Hc Hu h Hacts w1 w r.
  destruct (deliver_listening h inst SigReconnectFailed w) as (w' & Hd & Hs & Hp & Hn & Ht);
    [by eapply run_listening|].
  fold r in Hd. cbn [handler] in Hd.
  unfold on_reconnect_failed in Hd. revert Hd. run_m. norm_trace. intros Hd.
  rewrite Hd. cbn [fst snd socket pending trace]. rewrite Ht, Hs, Hp.
  split_and!; try done.
  - unfold w1. by rewrite (socketStart_run _ _ cfg url).
  - unfold w1. rewrite (socketStart_run _ _ cfg url) by done. cbn [snd].
    eexists. split; [apply started_handle|]. cbn [h_opts]. split; [|done].
    rewrite started_since. set_solver.
  - by apply since_app.
  - by rewrite background_live.
Qed.

(** C8, as the code has it: [getTimerAndUpdateState], the one place that
    sends [get_timer] and the one both the bootstrap chain and the
    [playback_status] listener go through, attaches the chain of lines
    224-239; when the request resolves, that chain hands
    [updateTimerState] an object with the fields [name], [speaker],
    [notes], [duration], [wrap_up_yellow] and [wrap_up_red], each read from
    the same field of the response, and does nothing else. *)
Theorem timer_snapshot_applied inst p w response :
  let data := get_prop response F_data in
  let r := settle p (Fulfilled response) w in
  pending w !! p = Some [SThen KTimer; SCatch (KLogError inst)] →
  object_coercible response = true → object_coercible data = true →
  (∀ w0 timer_id,
     pending (getTimerAndUpdateState inst timer_id w0).2 !! next_promise w0
     = Some [SThen KTimer; SCatch (KLogError inst)])
  ∧ r.1 = Ret ()
  ∧ ∃ partial,
      since w r.2 = [EUpdateTimerState partial]
      ∧ partial = {[ "name" := get_prop data F_name;
                     "speaker" := get_prop data F_speaker;
                     "notes" := get_prop data F_notes;
                     "duration" := get_prop data F_duration;
                     "wrap_up_yellow" := get_prop data F_wrap_up_yellow;
                     "wrap_up_red" := get_prop data F_wrap_up_red ]}
      ∧ dom partial = {[ "name"; "speaker"; "notes"; "duration";
                        "wrap_up_yellow"; "wrap_up_red" ]}.
Proof.
  intros data r Hp H1 H2. split_and!.
  - intros w0 timer_id. unfold getTimerAndUpdateState. run_m. apply lookup_insert_eq.
  - unfold r. by rewrite (settle_timer_fulfilled _ _ _ inst).
  - eexists. split_and!; [|reflexivity|].
    + unfold r. rewrite (settle_timer_fulfilled _ _ _ inst) by done.
      cbn [snd]. apply since_record.
    + rewrite ?dom_insert_L, ?dom_singleton_L. set_solver.
Qed.

(** C9: called without an instance, or with an instance without a
    configuration, [socketStart] throws [Error('Module instance required')]
    to its caller before it has done anything. *)
Theorem socketStart_precondition new_URL w :
  socketStart new_URL None w = (Throw (Error "Module instance required"), w)
  ∧ ∀ inst, config inst = None →
      socketStart new_URL (Some inst) w = (Throw (Error "Module instance required"), w).
Proof. split; [done|]. intros inst H. unfold socketStart. by rewrite H. Qed.

(** C10: the [playback_status] listener has no guard on [timer_id]:
    at any moment of a connection, whatever the payload carries there,
    [null] and every other falsy value included, exactly one [get_timer]
    request leaves with that value as its [timer_id] parameter. *)
Theorem playback_status_no_guard new_URL inst cfg url w0 acts payload :
  config inst = Some cfg → new_URL (apiUrl cfg) = Some url →
  let h := length (handles w0) in
  Forall (on_socket h) acts →
  object_coercible payload = true →
  let w := exec new_URL (CallStart (Some inst) :: acts) w0 in
  let r := deliver h (SigEvent playback_status payload) w in
  let timer_id := get_prop payload F_timer_id in
  r.1 = Ret ()
  ∧ requests get_timer (since w r.2) = [ {[ "timer_id" := timer_id ]} ]
  ∧ (truthy timer_id = false →
       ESend (iid inst) get_timer {[ "timer_id" := timer_id ]} (next_promise w)
         ∈ since w r.2).
Proof.
  intros Hc Hu h Hacts Hpay w r timer_id.
  destruct (deliver_listening h inst (SigEvent playback_status payload) w)
    as (w' & Hd & _ & Hp & Hn & Ht); [by eapply run_listening|].
  fold r in Hd. cbn [handler] in Hd.
  rewrite on_playback_status_run in Hd by done.
  rewrite Hd. cbn [fst snd]. erewrite since_app by (cbn [trace]; by rewrite Ht).
  split_and!; try done. intros _. rewrite Hn. set_solver.
Qed.

(** C2: in every run of the module, whatever the host calls, the transport
    signals and the API client answers, at no moment of the trace is more
    than one socket live; [socketStart] disconnects the socket it finds
    before it builds the next one; a connect raised on a socket runs the
    bootstrap exactly once, one [get_room] and one [get_status] request;
    and two calls of [socketStart] in a row leave exactly one live socket,
    the second one. *)
Theorem one_live_handle new_URL actions :
  let w := exec new_URL actions init_world in
  at_most_one_live (trace w)
  ∧ (∀ inst cfg url, config inst = Some cfg → new_URL (apiUrl cfg) = Some url →
       since w (socketStart new_URL (Some inst) w).2
       = match socket w with Some h0 => [ESocketDisconnect h0] | None => [] end
         ++ [ELog (iid inst) "info" "Connecting to Stagetimer.io...";
             EUpdateStatus (iid inst) Connecting;
             EIo (length (handles w)) (origin url) (start_options cfg url);
             ESocketConnect (length (handles w))])
  ∧ (∀ h hd, handles w !! h = Some hd →
       (let r := emit_signal h SigConnect w in
        r.1 = Ret ()
        ∧ requests get_room (since w r.2) = [∅]
        ∧ requests get_status (since w r.2) = [∅])
       ∧ (h_live hd = true →
          let r := deliver h SigConnect w in
          r.1 = Ret ()
          ∧ requests get_room (since w r.2) = [∅]
          ∧ requests get_status (since w r.2) = [∅]))
  ∧ (∀ i1 i2 c1 c2 u1 u2,
       config i1 = Some c1 → new_URL (apiUrl c1) = Some u1 →
       config i2 = Some c2 → new_URL (apiUrl c2) = Some u2 →
       let w' := exec new_URL [CallStart (Some i1); CallStart (Some i2)] w in
       let h2 := S (length (handles w)) in
       socket w' = Some h2
       ∧ live_handles (trace w') = {[ h2 ]}
       ∧ ∀ h hd, handles w' !! h = Some hd → (h_live hd = true ↔ h = h2)).
Proof.
  intros w.
  assert (consistent w) as Hw by apply consistent_exec, consistent_init.
  split_and!.
  - by destruct Hw as (_ & _ & _ & ?).
  - intros inst cfg url Hc Hu. rewrite (socketStart_run _ _ cfg url) by done.
    apply started_since.
  - intros h hd Hh. destruct Hw as (_ & _ & I3 & _).
    destruct (I3 _ _ Hh) as [inst Hls]. split.
    + unfold emit_signal. rewrite Hh, Hls, run_listeners_registered.
      cbn [handler]. rewrite on_connect_run. cbn [fst snd].
      by rewrite since_record.
    + intros Hl r. unfold r. rewrite (deliver_live _ inst _ _ hd) by done.
      cbn [handler]. rewrite on_connect_run. cbn [fst snd].
      by erewrite since_app by reflexivity.
  - intros i1 i2 c1 c2 u1 u2 Hc1 Hu1 Hc2 Hu2 w' h2.
    assert (w' = started i2 c2 u2 (started i1 c1 u1 w)) as ->.
    { unfold w'. cbn [exec foldl perform].
      rewrite (socketStart_run _ i1 c1 u1 w) by done. cbn [snd].
      by rewrite (socketStart_run _ i2 c2 u2). }
    destruct (consistent_started i1 c1 u1 w Hw) as [Hw1 _].
    destruct (consistent_started i2 c2 u2 _ Hw1) as [(I1 & I2 & _) Hlive].
    assert (length (handles (started i1 c1 u1 w)) = h2) as Hlen.
    { unfold started at 1. cbn [handles]. rewrite length_app, stopped_length. cbn. lia. }
    rewrite Hlen in Hlive. split_and!.
    + apply I2. rewrite Hlive. set_solver.
    + done.
    + intros h hd Hh. split.
      * intros Hl. assert (h ∈ live_handles (trace (started i2 c2 u2 (started i1 c1 u1 w))))
          as Hin by (apply I1; eauto). rewrite Hlive in Hin. set_solver.
      * intros ->. assert (h2 ∈ live_handles (trace (started i2 c2 u2 (started i1 c1 u1 w))))
          as (hd' & Hh' & Hl')%I1 by (rewrite Hlive; set_solver). congruence.
Qed.

(** * The rest of the module *)

(** ** Stopping and failing to start *)

Lemma stopped_socket w : socket (stopped w) = socket w.
Proof. unfold stopped. by destruct (socket w) eqn:E. Qed.

(** X1: in any state [socketStop] returns normally and is silent: its only
    call is [disconnect()] on the socket the module holds, if it holds
    one; it logs nothing, reports no status, sends no request and leaves
    the pending promises and the module variable alone. *)
Theorem socketStop_silent w :
  let r := socketStop w in
  r.1 = Ret ()
  ∧ since w r.2 = match socket w with Some h => [ESocketDisconnect h] | None => [] end
  ∧ socket r.2 = socket w
  ∧ pending r.2 = pending w
  ∧ length (handles r.2) = length (handles w).
Proof.
  cbv zeta. rewrite socketStop_run. cbn [fst snd]. split_and!.
  - done.
  - apply since_app. unfold stopped. destruct (socket w); [done | by rewrite app_nil_r].
  - apply stopped_socket.
  - apply stopped_pending.
  - apply stopped_length.
Qed.

(** X2: [socketStop] does not forget the socket: a second [socketStop]
    calls [disconnect()] on the same socket again, and that is all it
    does; the sockets are as the first call left them. *)
Theorem socketStop_twice w h :
  socket w = Some h →
  let w1 := (socketStop w).2 in
  let w2 := (socketStop w1).2 in
  since w1 w2 = [ESocketDisconnect h]
  ∧ handles w2 = handles w1
  ∧ socket w2 = Some h
  ∧ live_handles (trace w2) = live_handles (trace w1).
Proof.
  intros Hs w1 w2. unfold w2, w1. rewrite !socketStop_run. cbn [snd].
  assert (socket (stopped w) = Some h) as Hs1 by (by rewrite stopped_socket).
  assert (trace (stopped w) = trace w ++ [ESocketDisconnect h]) as Ht.
  { unfold stopped. by rewrite Hs. }
  assert (stopped (stopped w)
          = mkWorld (Some h) (handles (stopped w)) (pending (stopped w))
                    (next_promise (stopped w))
                    (trace (stopped w) ++ [ESocketDisconnect h])) as ->.
  { unfold stopped at 1. rewrite Hs1. f_equal.
    unfold stopped. rewrite Hs. cbn [handles].
    destruct (handles w !! h) as [hd|] eqn:Hh.
    - rewrite list_lookup_insert_eq by (by eapply lookup_lt_Some).
      cbn [set_flags h_origin h_opts h_listeners]. by rewrite list_insert_insert_eq.
    - by rewrite Hh. }
  cbn [handles socket trace]. split_and!; try done.
  - apply since_record.
  - rewrite Ht, !live_handles_app. cbn. set_solver.
Qed.

(** X3: a [socketStart] that throws has done nothing: whether the instance
    or its configuration is missing or [new URL] refuses the address, the
    connection that was there is not torn down and nothing is logged. *)
Theorem socketStart_failure_atomic new_URL instance w e :
  (socketStart new_URL instance w).1 = Throw e →
  (socketStart new_URL instance w).2 = w
  ∧ (∀ inst cfg, instance = Some inst → config inst = Some cfg →
       new_URL (apiUrl cfg) = None).
Proof.
  intros Hthrow.
  destruct (socketStart_cases new_URL instance w)
    as [Hw|(inst & cfg & url & -> & Hc & Hu & Hrun)].
  - split; [done|]. intros inst cfg -> Hc.
    destruct (new_URL (apiUrl cfg)) as [url|] eqn:Hu; [|done].
    rewrite (socketStart_run _ _ cfg url) in Hthrow by done. discriminate Hthrow.
  - rewrite Hrun in Hthrow. discriminate Hthrow.
Qed.

(** ** Listeners *)

(** X4: on the socket that [socketStart] built, and for as long as the
    connection runs, every channel has exactly one listener, the one of
    the instance given to [socketStart]: no signal is handled twice and
    none is left unheard. *)
Theorem one_listener_per_channel new_URL inst cfg url w0 acts :
  config inst = Some cfg → new_URL (apiUrl cfg) = Some url →
  let h := length (handles w0) in
  Forall (on_socket h) acts →
  let w := exec new_URL (CallStart (Some inst) :: acts) w0 in
  ∃ hd, handles w !! h = Some hd
        ∧ length (h_listeners hd) = 12
        ∧ (∀ c, filter (λ l, l_channel l = c) (h_listeners hd) = [mkListener c inst])
        ∧ (∀ s w', run_listeners (h_listeners hd) s w' = handler inst s w').
Proof.
  intros Hc Hu h Hacts w.
  destruct (run_listening new_URL inst cfg url w0 acts Hc Hu Hacts) as (hd & Hh & _ & Hls).
  exists hd. rewrite Hls. split_and!; try done.
  - intros c. unfold listeners_of. cbn [map].
    destruct c as [| | | | | | | |[]]; reflexivity.
  - intros s w'. apply run_listeners_registered.
Qed.

Lemma handler_reports inst s w :
  s ≠ SigConnect → (∀ ev payload, s ≠ SigEvent ev payload) →
  ∃ d, handler inst s w
       = (Ret (), mkWorld (socket w) (handles w) (pending w) (next_promise w) (trace w ++ d))
       ∧ forallb report_call d = true.
Proof.
  intros Hs1 Hs2.
  destruct s as [| |reason| | | | | |ev payload]; try done; unfold_handlers.
  2:{ destruct (String.eqb reason "io client disconnect").
      - exists []. rewrite app_nil_r. by destruct w.
      - run_m. norm_trace. by eexists. }
  all: try (run_m; norm_trace; by eexists).
  by destruct (Hs2 ev payload).
Qed.

(** X5: of the transport signals only [connect] fetches.  A connect error,
    a disconnect, an error, a reconnect attempt, a reconnect, a failed
    reconnect and a manager error are answered with logs and status
    reports alone: no request leaves, no promise is attached, the state
    store is not touched, and the listener returns normally.  In
    particular a manager [reconnect] does not run the bootstrap. *)
Theorem only_connect_fetches new_URL inst cfg url w0 acts s :
  config inst = Some cfg → new_URL (apiUrl cfg) = Some url →
  let h := length (handles w0) in
  Forall (on_socket h) acts →
  s ≠ SigConnect → (∀ ev payload, s ≠ SigEvent ev payload) →
  let w := exec new_URL (CallStart (Some inst) :: acts) w0 in
  let r := deliver h s w in
  r.1 = Ret ()
  ∧ forallb report_call (since w r.2) = true
  ∧ pending r.2 = pending w
  ∧ next_promise r.2 = next_promise w.
Proof.
  intros Hc Hu h Hacts Hs1 Hs2 w r.
  destruct (deliver_listening h inst s w) as (w' & Hd & _ & Hp & Hn & Ht);
    [by eapply run_listening|].
  fold r in Hd. rewrite Hd. clear Hd.
  destruct (handler_reports inst s w' Hs1 Hs2) as (d & -> & Hd).
  cbn [fst snd pending next_promise]. rewrite Ht, since_record. done.
Qed.

(** ** Push events *)

(** X6: a [flash] event forwards the [count] of its payload to
    [updateFlashingState] ([undefined] when the payload has none) after a
    debug log, and does nothing else: no request, no other update. *)
Theorem flash_event_forwarded new_URL inst cfg url w0 acts payload :
  config inst = Some cfg → new_URL (apiUrl cfg) = Some url →
  let h := length (handles w0) in
  Forall (on_socket h) acts →
  object_coercible payload = true →
  let w := exec new_URL (CallStart (Some inst) :: acts) w0 in
  let r := deliver h (SigEvent flash payload) w in
  r.1 = Ret ()
  ∧ since w r.2 = [ELog (iid inst) "debug" "Event: flash";
                   EUpdateFlashingState (get_prop payload F_count)]
  ∧ pending r.2 = pending w
  ∧ (∀ props, payload = JObj props → props !! "count" = None →
       since w r.2 = [ELog (iid inst) "debug" "Event: flash";
                      EUpdateFlashingState JUndefined]).
Proof.
  intros Hc Hu h Hacts Hpay w r.
  destruct (deliver_listening h inst (SigEvent flash payload) w)
    as (w' & Hd & _ & Hp & Hn & Ht); [by eapply run_listening|].
  fold r in Hd. cbn [handler] in Hd. unfold on_flash, destructure in Hd.
  rewrite Hpay in Hd. revert Hd. run_m. norm_trace. intros Hd.
  assert (since w r.2 = [ELog (iid inst) "debug" "Event: flash";
                         EUpdateFlashingState (get_prop payload F_count)]) as Hsince.
  { rewrite Hd. cbn [snd]. by rewrite Ht, since_record. }
  split_and!; try done.
  - by rewrite Hd.
  - by rewrite Hd.
  - intros props -> Hnone. rewrite Hsince. cbn [get_prop field_name]. by rewrite Hnone.
Qed.

(** X7: a [message] event hands [updateMessageState] an object with the
    five fields [showing], [text], [color], [bold] and [uppercase], each
    read from the field of the same name of the payload, after a debug
    log; it sends no request. *)
Theorem message_event_partial new_URL inst cfg url w0 acts payload :
  config inst = Some cfg → new_URL (apiUrl cfg) = Some url →
  let h := length (handles w0) in
  Forall (on_socket h) acts →
  object_coercible payload = true →
  let w := exec new_URL (CallStart (Some inst) :: acts) w0 in
  let r := deliver h (SigEvent message payload) w in
  r.1 = Ret ()
  ∧ since w r.2 = [ELog (iid inst) "debug" "Event: message";
                   EUpdateMessageState (message_partial payload)]
  ∧ dom (message_partial payload)
    = {[ "showing"; "text"; "color"; "bold"; "uppercase" ]}
  ∧ (∀ f, f ∈ [F_showing; F_text; F_color; F_bold; F_uppercase] →
       message_partial payload !! field_name f = Some (get_prop payload f))
  ∧ pending r.2 = pending w.
Proof.
  intros Hc Hu h Hacts Hpay w r.
  destruct (deliver_listening h inst (SigEvent message payload) w)
    as (w' & Hd & _ & Hp & Hn & Ht); [by eapply run_listening|].
  fold r in Hd. cbn [handler] in Hd. unfold on_message, destructure in Hd.
  rewrite Hpay in Hd. revert Hd. run_m. norm_trace. intros Hd.
  split_and!.
  - by rewrite Hd.
  - rewrite Hd. cbn [snd]. by rewrite Ht, since_record.
  - unfold message_partial. rewrite ?dom_insert_L, ?dom_singleton_L. set_solver.
  - intros f Hf. unfold message_partial.
    repeat (apply elem_of_cons in Hf as [->|Hf]; [by simplify_map_eq|]).
    by apply elem_of_nil in Hf.
  - by rewrite Hd.
Qed.

(** X8: a push event that comes without a payload ([undefined] or [null])
    makes its listener throw an error named [TypeError] out of the handler,
    whatever message the engine gives it: the debug log has been written,
    the state store is not called and no request leaves; this holds for
    each of the four events. *)
Theorem event_without_payload_throws new_URL inst cfg url w0 acts ev payload :
  config inst = Some cfg → new_URL (apiUrl cfg) = Some url →
  let h := length (handles w0) in
  Forall (on_socket h) acts →
  object_coercible payload = false →
  let w := exec new_URL (CallStart (Some inst) :: acts) w0 in
  let r := deliver h (SigEvent ev payload) w in
  (∃ e, r.1 = Throw e ∧ err_name e = "TypeError")
  ∧ since w r.2 = [ELog (iid inst) "debug" ("Event: " +:+ event_name ev)]
  ∧ pending r.2 = pending w
  ∧ next_promise r.2 = next_promise w.
Proof.
  intros Hc Hu h Hacts Hpay w r.
  destruct (deliver_listening h inst (SigEvent ev payload) w)
    as (w' & Hd & _ & Hp & Hn & Ht); [by eapply run_listening|].
  fold r in Hd. rewrite Hd. clear Hd.
  destruct ev; unfold_handlers; rewrite Hpay; run_m;
    rewrite Ht, since_record; (split; [by eexists|done]).
Qed.

(** ** Fetches *)

Lemma settle_room_fulfilled p response w inst :
  pending w !! p = Some (room_chain inst) →
  well_formed_response response = true →
  settle p (Fulfilled response) w =
  (Ret (), mkWorld (socket w) (handles w) (delete p (pending w)) (next_promise w)
             (trace w ++ [EUpdateRoomState (room_partial (get_prop response F_data))])).
Proof.
  intros H [H1 H2]%andb_true_iff. unfold settle. rewrite H. unfold room_chain.
  run_chain_m. rewrite H1, H2. run_chain_m. reflexivity.
Qed.

(** A response that cannot be destructured ends in the [.catch] of its
    chain, whichever of the three chains it is. *)
Lemma settle_malformed p response w inst chain :
  chain = room_chain inst ∨ chain = status_chain inst ∨ chain = timer_chain inst →
  pending w !! p = Some chain →
  well_formed_response response = false →
  ∃ e, err_name e = "TypeError" ∧
  settle p (Fulfilled response) w =
  (Ret (), mkWorld (socket w) (handles w) (delete p (pending w)) (next_promise w)
             (trace w ++ [ELog (iid inst) "error" (error_toString e)])).
Proof.
  intros Hchain H Hb. unfold settle. rewrite H. unfold well_formed_response in Hb.
  destruct Hchain as [->|[->| ->]];
    unfold room_chain, status_chain, timer_chain; run_chain_m;
    (destruct (object_coercible response); cbn in Hb; [rewrite Hb|]);
    run_chain_m; (eexists (mkError "TypeError" _); split; reflexivity).
Qed.

(** [toString] of an error named [TypeError] starts with that name. *)
Lemma TypeError_toString_prefix e :
  err_name e = "TypeError" → String.prefix "TypeError" (error_toString e) = true.
Proof.
  destruct e as [name message]. cbn [err_name]. intros ->.
  unfold error_toString. cbn [err_name err_message].
  change (String.eqb "TypeError" "") with false. cbv iota.
  by destruct (String.eqb message "").
Qed.

(** X9: when the [get_room] request of the bootstrap resolves,
    [updateRoomState] receives an object with the four fields [roomId],
    [roomName], [roomBlackout] and [roomFocus], read from [_id], [name],
    [blackout] and [focus_message] of the response, and nothing else
    happens. *)
Theorem room_snapshot_applied new_URL inst cfg url w0 acts response :
  config inst = Some cfg → new_URL (apiUrl cfg) = Some url →
  let h := length (handles w0) in
  Forall (on_socket h) acts →
  well_formed_response response = true →
  let w := exec new_URL (CallStart (Some inst) :: acts) w0 in
  let w2 := (deliver h SigConnect w).2 in
  let p := next_promise w in
  let data := get_prop response F_data in
  ESend (iid inst) get_room ∅ p ∈ since w w2
  ∧ pending w2 !! p = Some (room_chain inst)
  ∧ (∀ w', pending w' !! p = Some (room_chain inst) →
       let r := settle p (Fulfilled response) w' in
       r.1 = Ret ()
       ∧ since w' r.2 = [EUpdateRoomState (room_partial data)])
  ∧ dom (room_partial data) = {[ "roomId"; "roomName"; "roomBlackout"; "roomFocus" ]}
  ∧ room_partial data !! "roomId" = Some (get_prop data F__id)
  ∧ room_partial data !! "roomName" = Some (get_prop data F_name)
  ∧ room_partial data !! "roomBlackout" = Some (get_prop data F_blackout)
  ∧ room_partial data !! "roomFocus" = Some (get_prop data F_focus_message).
Proof.
  intros Hc Hu h Hacts Hresp w w2 p data.
  destruct (deliver_listening h inst SigConnect w) as (w1 & Hd & _ & Hp & Hn & Ht);
    [by eapply run_listening|].
  cbn [handler] in Hd. rewrite on_connect_run in Hd.
  split_and!.
  - erewrite since_app; [|unfold w2; rewrite Hd; cbn [snd trace]; by rewrite Ht].
    unfold p. rewrite Hn. set_solver.
  - unfold w2, p. rewrite Hd. cbn [snd pending]. rewrite Hn.
    rewrite lookup_insert_ne by lia. apply lookup_insert_eq.
  - intros w' Hw' r. unfold r. rewrite (settle_room_fulfilled _ _ _ inst) by done.
    cbn [fst snd]. by rewrite since_record.
  - unfold room_partial. rewrite ?dom_insert_L, ?dom_singleton_L. set_solver.
  - unfold room_partial. by simplify_map_eq.
  - unfold room_partial. by simplify_map_eq.
  - unfold room_partial. by simplify_map_eq.
  - unfold room_partial. by simplify_map_eq.
Qed.

(** X10: a fetch that resolves with a response that cannot be destructured
    (no response, or a response whose [data] is [undefined] or [null])
    is treated like a failed fetch, for each of the three requests: the
    error, named [TypeError], is caught and its [toString] logged at level
    error, a line that starts with [TypeError] and goes on as the engine
    words it; the state store is not called, no follow-up request leaves
    and nothing is thrown. *)
Theorem malformed_response_logged inst chain p w response :
  chain = room_chain inst ∨ chain = status_chain inst ∨ chain = timer_chain inst →
  pending w !! p = Some chain →
  well_formed_response response = false →
  let r := settle p (Fulfilled response) w in
  r.1 = Ret ()
  ∧ (∃ e, err_name e = "TypeError"
          ∧ since w r.2 = [ELog (iid inst) "error" (error_toString e)]
          ∧ String.prefix "TypeError" (error_toString e) = true)
  ∧ next_promise r.2 = next_promise w
  ∧ pending r.2 = delete p (pending w).
Proof.
  intros Hchain Hp Hresp r. unfold r.
  destruct (settle_malformed _ _ _ inst chain Hchain Hp Hresp) as (e & He & ->).
  cbn [fst snd next_promise pending]. split_and!; [done| |done..].
  exists e. split_and!; [done| by rewrite since_record | by apply TypeError_toString_prefix].
Qed.

(** X11: the bootstrap and the [playback_status] listener build the same
    playback snapshot from the same data: a [get_status] response whose
    [data] is [d] and a [playback_status] event whose payload is [d] hand
    [updatePlaybackState] the same object, with the five fields
    [currentTimerId], [isRunning], [kickoff], [deadline] and [lastStop]
    read from [timer_id], [running], [start], [finish] and [pause]. *)
Theorem playback_paths_agree new_URL inst cfg url w0 acts d response :
  config inst = Some cfg → new_URL (apiUrl cfg) = Some url →
  let h := length (handles w0) in
  Forall (on_socket h) acts →
  object_coercible d = true →
  object_coercible response = true → get_prop response F_data = d →
  let w := exec new_URL (CallStart (Some inst) :: acts) w0 in
  playback_updates (since w (deliver h (SigEvent playback_status d) w).2)
    = [playback_partial d]
  ∧ (∀ q w', pending w' !! q = Some (status_chain inst) →
       playback_updates (since w' (settle q (Fulfilled response) w').2)
       = [playback_partial d])
  ∧ dom (playback_partial d)
    = {[ "currentTimerId"; "isRunning"; "kickoff"; "deadline"; "lastStop" ]}
  ∧ playback_partial d !! "currentTimerId" = Some (get_prop d F_timer_id)
  ∧ playback_partial d !! "isRunning" = Some (get_prop d F_running)
  ∧ playback_partial d !! "kickoff" = Some (get_prop d F_start)
  ∧ playback_partial d !! "deadline" = Some (get_prop d F_finish)
  ∧ playback_partial d !! "lastStop" = Some (get_prop d F_pause).
Proof.
  intros Hc Hu h Hacts Hd Hresp Hdata w.
  split_and!.
  - destruct (deliver_listening h inst (SigEvent playback_status d) w)
      as (w' & Hdel & _ & Hp & Hn & Ht); [by eapply run_listening|].
    rewrite Hdel. cbn [handler]. rewrite on_playback_status_run by done.
    cbn [snd]. by rewrite Ht, since_record.
  - intros q w' Hq. rewrite (settle_status_fulfilled _ _ _ inst); [|done..|by rewrite Hdata].
    cbn [snd]. rewrite Hdata. destruct (truthy _); by rewrite since_record.
  - unfold playback_partial. rewrite ?dom_insert_L, ?dom_singleton_L. set_solver.
  - unfold playback_partial. by simplify_map_eq.
  - unfold playback_partial. by simplify_map_eq.
  - unfold playback_partial. by simplify_map_eq.
  - unfold playback_partial. by simplify_map_eq.
  - unfold playback_partial. by simplify_map_eq.
Qed.

(** X12: nothing ties a timer response to the timer that is current.  Two
    [playback_status] events send two [get_timer] requests; when the
    answers come back in the opposite order each is applied as it
    arrives, so the details of the first timer are written last, over
    those of the second. *)
Theorem stale_timer_response_applied new_URL inst cfg url w0 acts pa pb ra rb :
  config inst = Some cfg → new_URL (apiUrl cfg) = Some url →
  let h := length (handles w0) in
  Forall (on_socket h) acts →
  object_coercible pa = true → object_coercible pb = true →
  well_formed_response ra = true → well_formed_response rb = true →
  let w := exec new_URL (CallStart (Some inst) :: acts) w0 in
  let w2 := exec new_URL [Transport h (SigEvent playback_status pa);
                          Transport h (SigEvent playback_status pb)] w in
  let p := next_promise w in
  let w4 := exec new_URL [Settle (S p) (Fulfilled rb); Settle p (Fulfilled ra)] w2 in
  since w w2
  = [ELog (iid inst) "debug" "Event: playback_status";
     EUpdatePlaybackState (playback_partial pa);
     ESend (iid inst) get_timer {[ "timer_id" := get_prop pa F_timer_id ]} p;
     ELog (iid inst) "debug" "Event: playback_status";
     EUpdatePlaybackState (playback_partial pb);
     ESend (iid inst) get_timer {[ "timer_id" := get_prop pb F_timer_id ]} (S p)]
  ∧ since w2 w4
    = [EUpdateTimerState (timer_partial (get_prop rb F_data));
       EUpdateTimerState (timer_partial (get_prop ra F_data))].
Proof.
  intros Hc Hu h Hacts Hpa Hpb [Ha1 Ha2]%andb_true_iff [Hb1 Hb2]%andb_true_iff w w2 p w4.
  pose proof (run_listening new_URL inst cfg url w0 acts Hc Hu Hacts) as Hl. fold h w in Hl.
  destruct (deliver_listening h inst (SigEvent playback_status pa) w Hl)
    as (wa & Hda & _ & Hpa' & Hna & Hta).
  cbn [handler] in Hda. rewrite on_playback_status_run in Hda by done.
  assert (listening h inst (deliver h (SigEvent playback_status pa) w).2) as Hl1.
  { apply (perform_on_socket new_URL h inst (Transport h (SigEvent playback_status pa)) w);
      done. }
  destruct (deliver_listening h inst (SigEvent playback_status pb) _ Hl1)
    as (wb & Hdb & _ & Hpb' & Hnb & Htb).
  cbn [handler] in Hdb. rewrite on_playback_status_run in Hdb by done.
  rewrite Hda in Hpb', Hnb, Htb. cbn [snd pending next_promise trace] in Hpb', Hnb, Htb.
  assert (w2 = (deliver h (SigEvent playback_status pb)
                  (deliver h (SigEvent playback_status pa) w).2).2) as Hw2 by done.
  rewrite Hdb in Hw2. cbn [snd] in Hw2. rewrite Hpb', Hnb, Htb, Hna, Hta, Hpa' in Hw2.
  fold p in Hw2.
  split.
  - apply since_app. rewrite Hw2. cbn [trace]. by rewrite <- app_assoc.
  - unfold w4. cbn [exec foldl perform].
    rewrite (settle_timer_fulfilled (S p) rb w2 inst); [|rewrite Hw2; cbn [pending]|done..].
    2:{ apply lookup_insert_eq. }
    cbn [snd].
    rewrite (settle_timer_fulfilled p ra _ inst); [|cbn [pending]; rewrite Hw2; cbn [pending]|done..].
    2:{ rewrite lookup_delete_ne by lia. rewrite lookup_insert_ne by lia.
        apply lookup_insert_eq. }
    cbn [snd trace]. apply since_app. by rewrite <- app_assoc.
Qed.

(** X13: a field that a [room] event does not carry is not left out of
    the update: the key is there with the value [undefined].  An event
    without [focus_message] hands [updateRoomState] an object whose
    [roomFocus] is [undefined], one without [blackout] an object whose
    [roomBlackout] is [undefined]. *)
Theorem room_event_missing_field new_URL inst cfg url w0 acts props :
  config inst = Some cfg → new_URL (apiUrl cfg) = Some url →
  let h := length (handles w0) in
  Forall (on_socket h) acts →
  let w := exec new_URL (CallStart (Some inst) :: acts) w0 in
  let r := deliver h (SigEvent room (JObj props)) w in
  ∃ partial,
    room_updates (since w r.2) = [partial]
    ∧ (props !! "focus_message" = None → partial !! "roomFocus" = Some JUndefined)
    ∧ (props !! "blackout" = None → partial !! "roomBlackout" = Some JUndefined)
    ∧ (∀ v, props !! "focus_message" = Some v → partial !! "roomFocus" = Some v)
    ∧ (∀ v, props !! "blackout" = Some v → partial !! "roomBlackout" = Some v).
Proof.
  intros Hc Hu h Hacts w r.
  destruct (deliver_listening h inst (SigEvent room (JObj props)) w)
    as (w' & Hd & _ & _ & _ & Ht); [by eapply run_listening|].
  fold r in Hd. cbn [handler] in Hd. unfold on_room, destructure in Hd.
  cbn [object_coercible] in Hd. revert Hd. run_m. norm_trace. intros Hd.
  eexists. split.
  - rewrite Hd. cbn [snd]. rewrite Ht, since_record. reflexivity.
  - cbn [get_prop field_name]. split_and!.
    + intros ->. by simplify_map_eq.
    + intros ->. by simplify_map_eq.
    + intros v ->. by simplify_map_eq.
    + intros v ->. by simplify_map_eq.
Qed.

(** ** Invariants of every run *)

Lemma perform_cases new_URL a w :
  consistent w →
  (perform new_URL a w).2 = w
  ∨ (perform new_URL a w).2 = stopped w
  ∨ (∃ inst cfg url, (perform new_URL a w).2 = started inst cfg url w)
  ∨ (∃ h hd inst s, handles w !! h = Some hd
                    ∧ (perform new_URL a w).2 = (handler inst s (heard h s hd w)).2)
  ∨ (∃ p o, (perform new_URL a w).2 = (settle p o w).2).
Proof.
  intros (_ & _ & I3 & _). destruct a as [instance| |h s|p o]; cbn [perform].
  - destruct (socketStart_cases new_URL instance w)
      as [->|(inst & cfg & url & _ & _ & _ & ->)]; [by left|].
    right. right. left. by exists inst, cfg, url.
  - right. left. by rewrite socketStop_run.
  - destruct (handles w !! h) as [hd|] eqn:Hh; [|left; unfold deliver; by rewrite Hh].
    destruct (h_live hd) eqn:Hl; [|left; unfold deliver; by rewrite Hh, Hl].
    destruct (I3 _ _ Hh) as [inst Hls].
    right. right. right. left. exists h, hd, inst, s. split; [done|].
    by rewrite (deliver_live _ inst _ _ hd).
  - right. right. right. right. by exists p, o.
Qed.

(** Induction over the worlds a run from the initial state can reach. *)
Lemma exec_reachable (P : World → Prop) new_URL :
  P init_world →
  (∀ a w, consistent w → P w → P (perform new_URL a w).2) →
  ∀ actions, P (exec new_URL actions init_world).
Proof.
  intros Hinit Hstep actions.
  assert (∀ w, consistent w → P w → P (exec new_URL actions w)) as Hgen.
  { induction actions as [|a actions IH]; intros w Hc Hw; [done|].
    cbn [exec foldl]. apply IH; [by apply consistent_perform | by apply Hstep]. }
  apply Hgen; [apply consistent_init | done].
Qed.

Ltac solve_orderly H :=
  first
    [ exact H
    | let Ht := fresh "Ht" in
      let Hp := fresh "Hp" in
      destruct H as [Ht Hp]; split; cbn [trace pending];
      [ rewrite ?forallb_app, ?Ht; reflexivity
      | repeat (apply map_Forall_insert_2; [reflexivity|]);
        first [ exact Hp | by apply map_Forall_delete ] ] ].

Lemma handler_orderly inst s w : orderly w → orderly (handler inst s w).2.
Proof.
  intros H.
  destruct s as [| |reason| | | | | |ev payload]; unfold_handlers.
  3:{ destruct (String.eqb reason "io client disconnect"); run_m; norm_trace;
        solve_orderly H. }
  all: try (run_m; norm_trace; solve_orderly H).
  destruct ev; destruct (object_coercible payload); run_m; norm_trace; solve_orderly H.
Qed.

Lemma capture_then_orderly k v w : orderly w → orderly (capture (run_then k v) w).2.
Proof.
  intros H. destruct k; unfold capture; cbn [run_then];
    unfold room_then, status_then, timer_guard, timer_then, getTimerAndUpdateState,
      destructure.
  - destruct (object_coercible v); [destruct (object_coercible (get_prop v F_data))|];
      run_m; norm_trace; solve_orderly H.
  - destruct (object_coercible v); [destruct (object_coercible (get_prop v F_data))|];
      run_m; norm_trace; solve_orderly H.
  - destruct (truthy v); cbn [negb]; run_m; norm_trace; solve_orderly H.
  - destruct (object_coercible v); [destruct (object_coercible (get_prop v F_data))|];
      run_m; norm_trace; solve_orderly H.
Qed.

Lemma capture_catch_orderly k e w : orderly w → orderly (capture (run_catch k e) w).2.
Proof.
  intros H. destruct k. unfold capture, run_catch, log_error. run_m. solve_orderly H.
Qed.

Lemma run_chain_orderly stages : ∀ o w, orderly w → orderly (run_chain stages o w).2.
Proof.
  induction stages as [|st rest IH]; intros o w H; [done|].
  destruct st as [k|k], o as [v|e]; cbn [run_chain]; try by apply IH.
  - pose proof (capture_then_orderly k v w H) as H1.
    destruct (capture_ret (run_then k v) w) as [o' Ho'].
    unfold mbind, M_bind. destruct (capture (run_then k v) w) as [r w1].
    cbn in Ho', H1. subst r. by apply IH.
  - pose proof (capture_catch_orderly k e w H) as H1.
    destruct (capture_ret (run_catch k e) w) as [o' Ho'].
    unfold mbind, M_bind. destruct (capture (run_catch k e) w) as [r w1].
    cbn in Ho', H1. subst r. by apply IH.
Qed.

(** A chain that ends in a [.catch] ends fulfilled: the callback of
    lines 92-94 does not throw. *)
Lemma run_chain_caught stages : ∀ o w,
  ends_in_catch stages = true → ∃ v, (run_chain stages o w).1 = Ret (Fulfilled v).
Proof.
  induction stages as [|st rest IH]; intros o w H; [done|].
  destruct rest as [|st' rest'].
  - destruct st as [k|[inst]]; [done|]. destruct o as [v|e]; cbn [run_chain].
    + by exists v.
    + unfold capture, run_catch, log_error. run_m. by eexists.
  - assert (ends_in_catch (st' :: rest') = true) as H' by done.
    clear H. revert IH H'. generalize (st' :: rest') as rest. intros rest IH H'.
    destruct st as [k|k], o as [v|e]; cbn [run_chain]; try by apply IH.
    + destruct (capture_ret (run_then k v) w) as [o' Ho'].
      unfold mbind, M_bind. destruct (capture (run_then k v) w) as [r w1].
      cbn in Ho'. subst r. by apply IH.
    + destruct (capture_ret (run_catch k e) w) as [o' Ho'].
      unfold mbind, M_bind. destruct (capture (run_catch k e) w) as [r w1].
      cbn in Ho'. subst r. by apply IH.
Qed.

Lemma orderly_rejections d : forallb orderly_call d = true → rejections d = [].
Proof.
  induction d as [|e d IH]; [done|]. cbn [forallb]. intros [He Hd]%andb_true_iff.
  destruct e; try discriminate He; by apply IH.
Qed.

Lemma orderly_levels d i level msg :
  forallb orderly_call d = true → ELog i level msg ∈ d →
  level ∈ ["info"; "warn"; "error"; "debug"].
Proof.
  intros Hd Hin. apply list_elem_of_In in Hin.
  rewrite forallb_forall in Hd. apply Hd in Hin. cbn in Hin. unfold known_level in Hin.
  repeat (apply orb_true_iff in Hin as [Hin|Hin]);
    apply String.eqb_eq in Hin as ->; set_solver.
Qed.

Lemma settle_orderly p o w :
  orderly w →
  (settle p o w).1 = Ret ()
  ∧ orderly (settle p o w).2
  ∧ rejections (since w (settle p o w).2) = [].
Proof.
  intros H. unfold settle. destruct (pending w !! p) as [stages|] eqn:Hp.
  2:{ split_and!; try done. unfold since. by rewrite drop_all. }
  assert (ends_in_catch stages = true) as Hcatch by (by eapply (proj2 H)).
  set (w0 := mkWorld _ _ _ _ _).
  assert (orderly w0) as H0 by (unfold w0; solve_orderly H).
  pose proof (run_chain_orderly stages o w0 H0) as H1.
  destruct (run_chain_caught stages o w0 Hcatch) as [v Hv].
  destruct (run_chain_footprint stages o w0) as (d & (_ & _ & Td) & _).
  unfold mbind, M_bind. destruct (run_chain stages o w0) as [r w1].
  cbn in Hv, H1, Td. subst r. cbn [mret M_ret fst snd]. split_and!; try done.
  erewrite since_app by exact Td. apply orderly_rejections.
  destruct H1 as [H1 _]. rewrite Td, forallb_app in H1.
  by apply andb_true_iff in H1 as [_ ?].
Qed.

Lemma orderly_perform new_URL a w : consistent w → orderly w → orderly (perform new_URL a w).2.
Proof.
  intros Hc H.
  destruct (perform_cases new_URL a w Hc)
    as [->|[->|[(inst & cfg & url & ->)|[(h & hd & inst & s & Hh & ->)|(p & o & ->)]]]].
  - done.
  - unfold stopped. destruct (socket w); solve_orderly H.
  - unfold started, stopped. destruct (socket w); cbn [trace]; norm_trace; solve_orderly H.
  - apply handler_orderly. unfold heard. solve_orderly H.
  - by apply settle_orderly.
Qed.

Lemma orderly_init : orderly init_world.
Proof. split; [done|]. apply map_Forall_empty. Qed.

(** X14: in no run is a rejection left unhandled.  Every chain the module
    attaches to a request ends in the [.catch] that logs, so at every
    moment of every run each pending promise has such a chain, settling
    any promise with any outcome returns normally, and the trace holds no
    unhandled rejection. *)
Theorem no_unhandled_rejection new_URL actions :
  let w := exec new_URL actions init_world in
  rejections (trace w) = []
  ∧ (∀ p stages, pending w !! p = Some stages → ends_in_catch stages = true)
  ∧ (∀ p o, (settle p o w).1 = Ret ()
            ∧ rejections (since w (settle p o w).2) = []).
Proof.
  intros w.
  assert (orderly w) as H.
  { apply exec_reachable; [apply orderly_init|]. intros a w'. apply orderly_perform. }
  split_and!.
  - apply orderly_rejections, H.
  - intros p stages Hp. by eapply (proj2 H).
  - intros p o. destruct (settle_orderly p o w H) as (? & _ & ?). done.
Qed.

(** X15: every line the module logs, in every run, is logged at one of
    the levels [info], [warn], [error] and [debug]. *)
Theorem log_levels_known new_URL actions i level msg :
  ELog i level msg ∈ trace (exec new_URL actions init_world) →
  level ∈ ["info"; "warn"; "error"; "debug"].
Proof.
  assert (orderly (exec new_URL actions init_world)) as [H _].
  { apply exec_reachable; [apply orderly_init|]. intros a w'. apply orderly_perform. }
  by apply orderly_levels.
Qed.

Lemma handler_holds_latest inst s w : holds_latest w → holds_latest (handler inst s w).2.
Proof.
  intros H. destruct (handler_footprint inst s w) as (d & (Hs & Hh & _) & _).
  unfold holds_latest. by rewrite Hs, Hh.
Qed.

Lemma holds_latest_perform new_URL a w :
  consistent w → holds_latest w → holds_latest (perform new_URL a w).2.
Proof.
  intros Hc H.
  destruct (perform_cases new_URL a w Hc)
    as [->|[->|[(inst & cfg & url & ->)|[(h & hd & inst & s & Hh & ->)|(p & o & ->)]]]].
  - done.
  - unfold holds_latest in *. rewrite stopped_socket.
    destruct (socket w) as [h|] eqn:Hs; [by rewrite stopped_length|].
    unfold stopped. by rewrite Hs.
  - unfold holds_latest, started. cbn [socket handles].
    rewrite length_app, stopped_length. cbn. lia.
  - apply handler_holds_latest. unfold holds_latest, heard in *. cbn [socket handles].
    destruct (socket w) as [h'|]; [by rewrite length_insert|].
    rewrite H in Hh. done.
  - destruct (settle_footprint p o w) as (_ & d & (Hs & Hh & _) & _).
    unfold holds_latest. by rewrite Hs, Hh.
Qed.

(** X16: in every run the module variable holds the socket that was built
    last: it is [null] exactly as long as [socketStart] has never got as
    far as [io], and [socketStop] always acts on the newest socket, never
    on an older one. *)
Theorem socket_is_latest new_URL actions :
  let w := exec new_URL actions init_world in
  (socket w = None ↔ handles w = [])
  ∧ (∀ h, socket w = Some h → S h = length (handles w))
  ∧ (∀ h, ESocketDisconnect h ∈ since w (socketStop w).2 → S h = length (handles w)).
Proof.
  intros w.
  assert (holds_latest w) as H.
  { apply exec_reachable; [done|]. intros a w'. apply holds_latest_perform. }
  unfold holds_latest in H. split_and!.
  - destruct (socket w) as [h|]; [|done]. split; [done|].
    intros E. rewrite E in H. done.
  - intros h Hs. by rewrite Hs in H.
  - intros h. rewrite socketStop_run. cbn [snd]. unfold stopped.
    destruct (socket w) as [h'|] eqn:Hs.
    + rewrite since_record. by intros [= ->]%list_elem_of_singleton.
    + unfold since. rewrite drop_all. by intros ?%elem_of_nil.
Qed.

(** X17: [socketStart] calls [io] once, for the origin of [apiUrl] and not
    for the address as a whole; the handshake path is the path of the
    address with [socket.io] appended as it stands, no slash added, and
    the credentials are [roomId] and [apiKey] of the configuration. *)
Theorem io_called_with_config new_URL inst cfg url w :
  config inst = Some cfg → new_URL (apiUrl cfg) = Some url →
  let w1 := (socketStart new_URL (Some inst) w).2 in
  let h := length (handles w) in
  ∃ opts,
    filter (λ e, transport_call e = true) (since w w1)
    = match socket w with Some h0 => [ESocketDisconnect h0] | None => [] end
      ++ [EIo h (origin url) opts; ESocketConnect h]
    ∧ path opts = pathname url +:+ "socket.io"
    ∧ room_id (auth opts) = roomId cfg
    ∧ api_key (auth opts) = apiKey cfg
    ∧ (∃ hd, handles w1 !! h = Some hd ∧ h_origin hd = origin url ∧ h_opts hd = opts).
Proof.
  intros Hc Hu w1 h. unfold w1. rewrite (socketStart_run _ _ cfg url) by done. cbn [snd].
  exists (start_options cfg url). split_and!; try done.
  - rewrite started_since. by destruct (socket w).
  - eexists. split; [apply started_handle | done].
Qed.

End Proofs.

(** * The model at work *)

(** The runs below are runs on [sample_engine]. *)
#[local] Existing Instance sample_engine.

Example truthy_negative_zero : truthy (JNum (S754_zero true)) = false.
Proof. reflexivity. Qed.

Example truthy_nan : truthy (JNum S754_nan) = false.
Proof. reflexivity. Qed.

Example truthy_number : truthy (js_number 3) = true.
Proof. reflexivity. Qed.

Example truthy_empty_string : truthy (JStr "") = false.
Proof. reflexivity. Qed.

Example truthy_timer_id : truthy (JStr "T1") = true.
Proof. reflexivity. Qed.

Example string_payload_bold : get_prop (JStr "abc") F_bold = JFunction "bold".
Proof. reflexivity. Qed.

Example error_toString_sample :
  error_toString sample_error = "Error: Request failed with status code 404".
Proof. reflexivity. Qed.

Example error_toString_no_message : error_toString (mkError "TypeError" "") = "TypeError".
Proof. reflexivity. Qed.

(** [socketStop] before any [socketStart] does nothing. *)
Example socketStop_before_start : socketStop init_world = (Ret (), init_world).
Proof. reflexivity. Qed.

Example reconnect_attempt_trace :
  trace (on_reconnect_attempt sample_instance 3 init_world).2
  = [ELog 7 "warn" "Reconnecting... (Attempt #3)"; EUpdateStatus 7 Connecting].
Proof. reflexivity. Qed.

(** A [room] event without a payload: the listener has logged when the
    destructuring throws. *)
Example room_event_null_payload :
  on_room sample_instance JNull init_world
  = (Throw (mkError "TypeError" (destructure_message 182 JNull)),
     mkWorld None [] ∅ 0 [ELog 7 "debug" "Event: room"]).
Proof. reflexivity. Qed.

(** Start, connect, a failed and a successful fetch, a second start. *)
Example sample_run_statuses :
  statuses (trace (exec sample_URL
                     [CallStart (Some sample_instance); Transport 0 SigConnect;
                      Settle 0 (Rejected sample_error);
                      Settle 1 (Fulfilled (sample_status_response (JStr "T1")));
                      Transport 0 (SigDisconnect "ping timeout");
                      CallStart (Some sample_instance); Transport 0 SigConnect;
                      Transport 1 SigConnect]
                     init_world))
  = [Connecting; Ok; Disconnected; Connecting; Ok].
Proof. reflexivity. Qed.

Example sample_run_live :
  map h_live (handles (exec sample_URL
                         [CallStart (Some sample_instance); Transport 0 SigConnect;
                          CallStart (Some sample_instance)]
                         init_world))
  = [false; true].
Proof. reflexivity. Qed.

(** ** The theorems on sample runs *)

Lemma status_sequence_matches_table_witness :
  config sample_instance = Some sample_config
  ∧ sample_URL (apiUrl sample_config) = Some sample_url
  ∧ statuses (since init_world
       (exec sample_URL
          [CallStart (Some sample_instance);
           Transport 0 SigConnect;
           Settle 1 (Fulfilled (sample_status_response JNull));
           Transport 0 (SigDisconnect "transport close");
           Transport 0 (SigReconnectAttempt 1);
           Transport 0 (SigReconnect 1);
           Transport 0 (SigDisconnect "io client disconnect")]
          init_world))
    = [Connecting; Ok; Disconnected; Connecting; Ok].
Proof.
  split; [reflexivity|]. split; [reflexivity|].
  destruct (status_sequence_matches_table sample_URL sample_instance sample_config
              sample_url init_world
              [Transport 0 SigConnect;
               Settle 1 (Fulfilled (sample_status_response JNull));
               Transport 0 (SigDisconnect "transport close");
               Transport 0 (SigReconnectAttempt 1);
               Transport 0 (SigReconnect 1);
               Transport 0 (SigDisconnect "io client disconnect")])
    as [Hrun _]; [reflexivity | reflexivity | repeat constructor |].
  exact Hrun.
Defined.

Lemma bootstrap_timer_guard_witness :
  config sample_instance = Some sample_config
  ∧ sample_URL (apiUrl sample_config) = Some sample_url
  ∧ Forall (on_socket 0) [Transport 0 (SigReconnectAttempt 1)]
  ∧ (let w := exec sample_URL [CallStart (Some sample_instance);
                               Transport 0 (SigReconnectAttempt 1)] init_world in
     let w2 := (deliver 0 SigConnect w).2 in
     requests get_timer
       (since w2 (settle 1 (Fulfilled (sample_status_response JNull)) w2).2) = []
     ∧ requests get_timer
         (since w2 (settle 1 (Fulfilled (sample_status_response (JStr "T1"))) w2).2)
       = [ {[ "timer_id" := JStr "T1" ]} ]).
Proof.
  split; [reflexivity|]. split; [reflexivity|]. split; [repeat constructor|].
  split.
  - destruct (bootstrap_timer_guard sample_URL sample_instance sample_config sample_url
                init_world [Transport 0 (SigReconnectAttempt 1)]
                (sample_status_response JNull))
      as (_ & Hq & Hsettle); [reflexivity | reflexivity | repeat constructor |].
    apply (Hsettle _ Hq). reflexivity.
  - destruct (bootstrap_timer_guard sample_URL sample_instance sample_config sample_url
                init_world [Transport 0 (SigReconnectAttempt 1)]
                (sample_status_response (JStr "T1")))
      as (_ & Hq & Hsettle); [reflexivity | reflexivity | repeat constructor |].
    apply (Hsettle _ Hq). reflexivity.
Defined.

Lemma playback_status_fetch_rejected_witness :
  config sample_instance = Some sample_config
  ∧ sample_URL (apiUrl sample_config) = Some sample_url
  ∧ Forall (on_socket 0) [Transport 0 SigConnect]
  ∧ get_prop (sample_playback_payload (JStr "T2")) F_timer_id = JStr "T2"
  ∧ (let w := exec sample_URL [CallStart (Some sample_instance); Transport 0 SigConnect]
                   init_world in
     let w2 := (deliver 0 (SigEvent playback_status (sample_playback_payload (JStr "T2")))
                        w).2 in
     let w3 := (settle 2 (Rejected sample_error) w2).2 in
     playback_updates (since w w2)
     = [ {[ "currentTimerId" := JStr "T2"; "isRunning" := JBool false;
            "kickoff" := JNull; "deadline" := JNull; "lastStop" := JNull ]} ]
     ∧ requests get_timer (since w w2) = [ {[ "timer_id" := JStr "T2" ]} ]
     ∧ since w2 w3
       = [ELog 7 "error" "Error: Request failed with status code 404"]).
Proof.
  split; [reflexivity|]. split; [reflexivity|]. split; [repeat constructor|].
  split; [reflexivity|].
  destruct (playback_status_fetch_rejected sample_URL sample_instance sample_config
              sample_url init_world [Transport 0 SigConnect]
              (sample_playback_payload (JStr "T2")) sample_error)
    as (_ & Hsent & Hchain & Hrejected);
    [reflexivity | reflexivity | repeat constructor | reflexivity |].
  split; [|split].
  - exact (f_equal playback_updates Hsent).
  - exact (f_equal (requests get_timer) Hsent).
  - apply Hrejected. exact Hchain.
Defined.

Lemma room_event_partial_witness :
  config sample_instance = Some sample_config
  ∧ sample_URL (apiUrl sample_config) = Some sample_url
  ∧ Forall (on_socket 0) [Transport 0 SigConnect]
  ∧ object_coercible sample_room_payload = true
  ∧ (let w := exec sample_URL [CallStart (Some sample_instance); Transport 0 SigConnect]
                   init_world in
     let w2 := (deliver 0 (SigEvent room sample_room_payload) w).2 in
     room_updates (since w w2)
     = [ {[ "roomBlackout" := JBool true; "roomFocus" := JStr "x" ]} ]).
Proof.
  split; [reflexivity|]. split; [reflexivity|]. split; [repeat constructor|].
  split; [reflexivity|].
  apply (room_event_partial sample_URL sample_instance sample_config sample_url
           init_world [Transport 0 SigConnect] sample_room_payload sample_store);
    [reflexivity | reflexivity | repeat constructor | reflexivity].
Defined.



Lemma bounded_reconnection_witness :
  config sample_instance = Some sample_config
  ∧ sample_URL (apiUrl sample_config) = Some sample_url
  ∧ Forall (on_socket 0) [Transport 0 (SigConnectError sample_error);
                          Transport 0 (SigReconnectAttempt 5)]
  ∧ (let w := exec sample_URL [CallStart (Some sample_instance);
                               Transport 0 (SigConnectError sample_error);
                               Transport 0 (SigReconnectAttempt 5)] init_world in
     socket (socketStart sample_URL (Some sample_instance) init_world).2 = Some 0
     ∧ statuses (since w (deliver 0 SigReconnectFailed w).2) = [ConnectionFailure]).
Proof.
  split; [reflexivity|]. split; [reflexivity|]. split; [repeat constructor|].
  destruct (bounded_reconnection sample_URL sample_instance sample_config sample_url
              init_world [Transport 0 (SigConnectError sample_error);
                          Transport 0 (SigReconnectAttempt 5)])
    as (Hsocket & _ & _ & Hsince & _); [reflexivity | reflexivity | repeat constructor |].
  split; [exact Hsocket|]. exact (f_equal statuses Hsince).
Defined.

Lemma timer_snapshot_applied_witness :
  let w := (getTimerAndUpdateState sample_instance (JStr "T1") init_world).2 in
  pending w !! 0 = Some [SThen KTimer; SCatch (KLogError sample_instance)]
  ∧ object_coercible sample_timer_response = true
  ∧ object_coercible (get_prop sample_timer_response F_data) = true
  ∧ (settle 0 (Fulfilled sample_timer_response) w).1 = Ret ().
Proof.
  split; [reflexivity|]. split; [reflexivity|]. split; [reflexivity|].
  apply (timer_snapshot_applied sample_instance 0
           (getTimerAndUpdateState sample_instance (JStr "T1") init_world).2
           sample_timer_response); reflexivity.
Defined.

(** C8, as the specification words it: on a resolved [get_timer] request
    no update with the field names of section 3 ([wrapUpYellowAt],
    [wrapUpRedAt]) reaches [updateTimerState]. *)
Lemma timer_snapshot_fields_counterexample :
  let w1 := (getTimerAndUpdateState sample_instance (JStr "T1") init_world).2 in
  let w2 := (settle 0 (Fulfilled sample_timer_response) w1).2 in
  ¬ ∃ partial, timer_updates (since w1 w2) = [partial]
               ∧ dom partial = spec_TimerSnapshot_fields.
Proof.
  intros w1 w2 (partial & Hupd & Hdom).
  assert ("wrapUpYellowAt" ∈ dom partial) as Hin.
  { rewrite Hdom. unfold spec_TimerSnapshot_fields. set_solver. }
  unfold w2 in Hupd.
  rewrite (settle_timer_fulfilled 0 _ w1 sample_instance) in Hupd by done.
  cbn [snd] in Hupd. rewrite since_record in Hupd.
  injection Hupd as <-.
  rewrite ?dom_insert_L, ?dom_singleton_L in Hin. set_solver.
Qed.

Lemma socketStart_precondition_witness :
  config (mkInstance 3 None) = None
  ∧ socketStart sample_URL (Some (mkInstance 3 None)) init_world
    = (Throw (Error "Module instance required"), init_world).
Proof.
  split; [reflexivity|].
  apply (socketStart_precondition sample_URL init_world). reflexivity.
Defined.

Lemma playback_status_no_guard_witness :
  config sample_instance = Some sample_config
  ∧ sample_URL (apiUrl sample_config) = Some sample_url
  ∧ Forall (on_socket 0) [Transport 0 SigConnect]
  ∧ object_coercible (sample_playback_payload JNull) = true
  ∧ truthy (get_prop (sample_playback_payload JNull) F_timer_id) = false
  ∧ (let w := exec sample_URL [CallStart (Some sample_instance); Transport 0 SigConnect]
                   init_world in
     let w2 := (deliver 0 (SigEvent playback_status (sample_playback_payload JNull)) w).2 in
     requests get_timer (since w w2) = [ {[ "timer_id" := JNull ]} ]).
Proof.
  split; [reflexivity|]. split; [reflexivity|]. split; [repeat constructor|].
  split; [reflexivity|]. split; [reflexivity|].
  apply (playback_status_no_guard sample_URL sample_instance sample_config sample_url
           init_world [Transport 0 SigConnect] (sample_playback_payload JNull));
    [reflexivity | reflexivity | repeat constructor | reflexivity].
Defined.

Lemma one_live_handle_witness :
  let w := exec sample_URL [CallStart (Some sample_instance); Transport 0 SigConnect;
                            CallStop; CallStart (Some sample_instance)] init_world in
  config sample_instance = Some sample_config
  ∧ sample_URL (apiUrl sample_config) = Some sample_url
  ∧ (∃ hd, handles w !! 1 = Some hd ∧ h_live hd = true)
  ∧ requests get_room (since w (deliver 1 SigConnect w).2) = [∅]
  ∧ live_handles
      (trace (exec sample_URL [CallStart (Some sample_instance);
                               CallStart (Some sample_instance)] w))
    = {[ 3 ]}.
Proof.
  intros w.
  split; [reflexivity|]. split; [reflexivity|].
  split; [eexists; split; reflexivity|].
  destruct (one_live_handle sample_URL
              [CallStart (Some sample_instance); Transport 0 SigConnect;
               CallStop; CallStart (Some sample_instance)])
    as (_ & _ & Hconnect & Htwice).
  split.
  - eapply (Hconnect 1); reflexivity.
  - eapply (Htwice sample_instance sample_instance sample_config sample_config
              sample_url sample_url); reflexivity.
Defined.

Lemma socketStop_twice_witness :
  let w := exec sample_URL [CallStart (Some sample_instance); Transport 0 SigConnect]
                init_world in
  socket w = Some 0
  ∧ since (socketStop w).2 (socketStop (socketStop w).2).2 = [ESocketDisconnect 0].
Proof.
  split; [reflexivity|].
  apply (socketStop_twice
           (exec sample_URL [CallStart (Some sample_instance); Transport 0 SigConnect]
                 init_world) 0).
  reflexivity.
Defined.

Lemma socketStart_failure_atomic_witness :
  let w := exec sample_URL [CallStart (Some sample_instance); Transport 0 SigConnect]
                init_world in
  let bad := Some (mkInstance 8 (Some (mkConfig "stagetimer" "ROOM" "KEY"))) in
  (socketStart sample_URL bad w).1 = Throw (mkError "TypeError" "Invalid URL")
  ∧ (socketStart sample_URL bad w).2 = w.
Proof.
  split; [reflexivity|].
  apply (socketStart_failure_atomic sample_URL
           (Some (mkInstance 8 (Some (mkConfig "stagetimer" "ROOM" "KEY"))))
           (exec sample_URL [CallStart (Some sample_instance); Transport 0 SigConnect]
                 init_world)
           (mkError "TypeError" "Invalid URL")).
  reflexivity.
Defined.

Lemma one_listener_per_channel_witness :
  config sample_instance = Some sample_config
  ∧ sample_URL (apiUrl sample_config) = Some sample_url
  ∧ Forall (on_socket 0) [Transport 0 SigConnect]
  ∧ (let w := exec sample_URL [CallStart (Some sample_instance); Transport 0 SigConnect]
                   init_world in
     ∃ hd, handles w !! 0 = Some hd ∧ length (h_listeners hd) = 12).
Proof.
  split; [reflexivity|]. split; [reflexivity|]. split; [repeat constructor|].
  destruct (one_listener_per_channel sample_URL sample_instance sample_config sample_url
              init_world [Transport 0 SigConnect])
    as (hd & Hh & Hlen & _); [reflexivity | reflexivity | repeat constructor |].
  exists hd. split; [exact Hh | exact Hlen].
Defined.

Lemma only_connect_fetches_witness :
  config sample_instance = Some sample_config
  ∧ sample_URL (apiUrl sample_config) = Some sample_url
  ∧ Forall (on_socket 0) [Transport 0 (SigDisconnect "transport close")]
  ∧ SigReconnect 2 ≠ SigConnect
  ∧ (let w := exec sample_URL [CallStart (Some sample_instance);
                               Transport 0 (SigDisconnect "transport close")]
                   init_world in
     since w (deliver 0 (SigReconnect 2) w).2
     = [ELog 7 "info" "Reconnected on attempt #2!"; EUpdateStatus 7 Ok]
     ∧ pending (deliver 0 (SigReconnect 2) w).2 = pending w).
Proof.
  split; [reflexivity|]. split; [reflexivity|]. split; [repeat constructor|].
  split; [discriminate|].
  split; [reflexivity|].
  apply (only_connect_fetches sample_URL sample_instance sample_config sample_url
           init_world [Transport 0 (SigDisconnect "transport close")] (SigReconnect 2));
    [reflexivity | reflexivity | repeat constructor | discriminate | discriminate].
Defined.

Lemma flash_event_forwarded_witness :
  config sample_instance = Some sample_config
  ∧ sample_URL (apiUrl sample_config) = Some sample_url
  ∧ Forall (on_socket 0) [Transport 0 SigConnect]
  ∧ object_coercible sample_flash_payload = true
  ∧ (let w := exec sample_URL [CallStart (Some sample_instance); Transport 0 SigConnect]
                   init_world in
     since w (deliver 0 (SigEvent flash sample_flash_payload) w).2
     = [ELog 7 "debug" "Event: flash"; EUpdateFlashingState (js_number 3)]).
Proof.
  split; [reflexivity|]. split; [reflexivity|]. split; [repeat constructor|].
  split; [reflexivity|].
  apply (flash_event_forwarded sample_URL sample_instance sample_config sample_url
           init_world [Transport 0 SigConnect] sample_flash_payload);
    [reflexivity | reflexivity | repeat constructor | reflexivity].
Defined.

Lemma message_event_partial_witness :
  config sample_instance = Some sample_config
  ∧ sample_URL (apiUrl sample_config) = Some sample_url
  ∧ Forall (on_socket 0) [Transport 0 SigConnect]
  ∧ object_coercible sample_message_payload = true
  ∧ (let w := exec sample_URL [CallStart (Some sample_instance); Transport 0 SigConnect]
                   init_world in
     since w (deliver 0 (SigEvent message sample_message_payload) w).2
     = [ELog 7 "debug" "Event: message";
        EUpdateMessageState (message_partial sample_message_payload)]).
Proof.
  split; [reflexivity|]. split; [reflexivity|]. split; [repeat constructor|].
  split; [reflexivity|].
  apply (message_event_partial sample_URL sample_instance sample_config sample_url
           init_world [Transport 0 SigConnect] sample_message_payload);
    [reflexivity | reflexivity | repeat constructor | reflexivity].
Defined.

Lemma event_without_payload_throws_witness :
  config sample_instance = Some sample_config
  ∧ sample_URL (apiUrl sample_config) = Some sample_url
  ∧ Forall (on_socket 0) [Transport 0 SigConnect]
  ∧ object_coercible JUndefined = false
  ∧ (let w := exec sample_URL [CallStart (Some sample_instance); Transport 0 SigConnect]
                   init_world in
     ∃ e, (deliver 0 (SigEvent playback_status JUndefined) w).1 = Throw e
          ∧ err_name e = "TypeError").
Proof.
  split; [reflexivity|]. split; [reflexivity|]. split; [repeat constructor|].
  split; [reflexivity|].
  apply (event_without_payload_throws sample_URL sample_instance sample_config sample_url
           init_world [Transport 0 SigConnect] playback_status JUndefined);
    [reflexivity | reflexivity | repeat constructor | reflexivity].
Defined.

Lemma room_snapshot_applied_witness :
  let response :=
    JObj {[ "data" := JObj {[ "_id" := JStr "ROOM"; "name" := JStr "Main stage";
                             "blackout" := JBool false; "focus_message" := JNull ]} ]} in
  config sample_instance = Some sample_config
  ∧ sample_URL (apiUrl sample_config) = Some sample_url
  ∧ Forall (on_socket 0) []
  ∧ well_formed_response response = true
  ∧ (let w := exec sample_URL [CallStart (Some sample_instance)] init_world in
     let w2 := (deliver 0 SigConnect w).2 in
     room_updates (since w2 (settle 0 (Fulfilled response) w2).2) = [sample_store]).
Proof.
  intros response.
  split; [reflexivity|]. split; [reflexivity|]. split; [constructor|].
  split; [reflexivity|].
  destruct (room_snapshot_applied sample_URL sample_instance sample_config sample_url
              init_world [] response)
    as (_ & Hp & Hsettle & _); [reflexivity | reflexivity | constructor | reflexivity |].
  destruct (Hsettle _ Hp) as [_ Hsince].
  exact (f_equal room_updates Hsince).
Defined.

Lemma malformed_response_logged_witness :
  let w := (deliver 0 SigConnect
              (exec sample_URL [CallStart (Some sample_instance)] init_world)).2 in
  (status_chain sample_instance = room_chain sample_instance
   ∨ status_chain sample_instance = status_chain sample_instance
   ∨ status_chain sample_instance = timer_chain sample_instance)
  ∧ pending w !! 1 = Some (status_chain sample_instance)
  ∧ well_formed_response (JObj ∅) = false
  ∧ (∃ e, err_name e = "TypeError"
          ∧ since w (settle 1 (Fulfilled (JObj ∅)) w).2
            = [ELog 7 "error" (error_toString e)]
          ∧ String.prefix "TypeError" (error_toString e) = true)
  ∧ playback_updates (since w (settle 1 (Fulfilled (JObj ∅)) w).2) = []
  ∧ requests get_timer (since w (settle 1 (Fulfilled (JObj ∅)) w).2) = [].
Proof.
  intros w.
  split; [right; left; reflexivity|]. split; [reflexivity|]. split; [reflexivity|].
  destruct (malformed_response_logged sample_instance (status_chain sample_instance) 1 w
              (JObj ∅)) as (_ & (e & He & Hsince & Hprefix) & _);
    [right; left; reflexivity | reflexivity | reflexivity |].
  split; [exists e; exact (conj He (conj Hsince Hprefix))|].
  split; [exact (f_equal playback_updates Hsince) | exact (f_equal (requests get_timer) Hsince)].
Defined.

Lemma playback_paths_agree_witness :
  let d := sample_playback_payload (JStr "T1") in
  config sample_instance = Some sample_config
  ∧ sample_URL (apiUrl sample_config) = Some sample_url
  ∧ Forall (on_socket 0) []
  ∧ object_coercible d = true
  ∧ object_coercible (JObj {[ "data" := d ]}) = true
  ∧ get_prop (JObj {[ "data" := d ]}) F_data = d
  ∧ (let w := exec sample_URL [CallStart (Some sample_instance)] init_world in
     playback_updates (since w (deliver 0 (SigEvent playback_status d) w).2)
     = [playback_partial d]).
Proof.
  intros d.
  split; [reflexivity|]. split; [reflexivity|]. split; [constructor|].
  split; [reflexivity|]. split; [reflexivity|]. split; [reflexivity|].
  destruct (playback_paths_agree sample_URL sample_instance sample_config sample_url
              init_world [] d (JObj {[ "data" := d ]}))
    as [Hevent _]; [reflexivity | reflexivity | constructor | reflexivity..|].
  exact Hevent.
Defined.

Lemma stale_timer_response_applied_witness :
  let pa := sample_playback_payload (JStr "T1") in
  let pb := sample_playback_payload (JStr "T2") in
  config sample_instance = Some sample_config
  ∧ sample_URL (apiUrl sample_config) = Some sample_url
  ∧ Forall (on_socket 0) []
  ∧ object_coercible pa = true ∧ object_coercible pb = true
  ∧ well_formed_response sample_timer_response = true
  ∧ well_formed_response sample_timer_response_b = true
  ∧ (let w := exec sample_URL [CallStart (Some sample_instance)] init_world in
     let w2 := exec sample_URL [Transport 0 (SigEvent playback_status pa);
                                Transport 0 (SigEvent playback_status pb)] w in
     let p := next_promise w in
     let w4 := exec sample_URL [Settle (S p) (Fulfilled sample_timer_response_b);
                                Settle p (Fulfilled sample_timer_response)] w2 in
     p = 0
     ∧ timer_updates (since w2 w4)
       = [timer_partial (get_prop sample_timer_response_b F_data);
          timer_partial (get_prop sample_timer_response F_data)]).
Proof.
  intros pa pb.
  split; [reflexivity|]. split; [reflexivity|]. split; [constructor|].
  split; [reflexivity|]. split; [reflexivity|]. split; [reflexivity|].
  split; [reflexivity|].
  destruct (stale_timer_response_applied sample_URL sample_instance sample_config
              sample_url init_world [] pa pb sample_timer_response sample_timer_response_b)
    as [_ Hsince]; [reflexivity | reflexivity | constructor | reflexivity..|].
  split; [reflexivity|]. exact (f_equal timer_updates Hsince).
Defined.

Lemma room_event_missing_field_witness :
  config sample_instance = Some sample_config
  ∧ sample_URL (apiUrl sample_config) = Some sample_url
  ∧ Forall (on_socket 0) []
  ∧ (let w := exec sample_URL [CallStart (Some sample_instance)] init_world in
     room_updates (since w (deliver 0 (SigEvent room (JObj ∅)) w).2)
     = [ {[ "roomBlackout" := JUndefined; "roomFocus" := JUndefined ]} ]).
Proof.
  split; [reflexivity|]. split; [reflexivity|]. split; [constructor|].
  destruct (room_event_missing_field sample_URL sample_instance sample_config sample_url
              init_world [] ∅)
    as (partial & Hupd & _); [reflexivity | reflexivity | constructor |].
  reflexivity.
Defined.

Lemma no_unhandled_rejection_witness :
  let w := exec sample_URL [CallStart (Some sample_instance); Transport 0 SigConnect]
                init_world in
  pending w !! 0 = Some (room_chain sample_instance)
  ∧ ends_in_catch (room_chain sample_instance) = true
  ∧ (settle 0 (Rejected sample_error) w).1 = Ret ()
  ∧ rejections (trace w) = [].
Proof.
  intros w. split; [reflexivity|].
  destruct (no_unhandled_rejection sample_URL
              [CallStart (Some sample_instance); Transport 0 SigConnect])
    as (Hnone & Hcaught & Hsettle).
  split; [exact (Hcaught 0 (room_chain sample_instance) eq_refl)|].
  split; [exact (proj1 (Hsettle 0 (Rejected sample_error)))|].
  exact Hnone.
Defined.

Lemma log_levels_known_witness :
  ELog 7 "info" "Connecting to Stagetimer.io..."
    ∈ trace (exec sample_URL [CallStart (Some sample_instance)] init_world)
  ∧ "info" ∈ ["info"; "warn"; "error"; "debug"].
Proof.
  assert (ELog 7 "info" "Connecting to Stagetimer.io..."
            ∈ trace (exec sample_URL [CallStart (Some sample_instance)] init_world))
    as Hin.
  { replace (trace (exec sample_URL [CallStart (Some sample_instance)] init_world))
      with [ELog 7 "info" "Connecting to Stagetimer.io..."; EUpdateStatus 7 Connecting;
            EIo 0 "https://api.stagetimer.io" (start_options sample_config sample_url);
            ESocketConnect 0] by reflexivity.
    apply list_elem_of_here. }
  split; [exact Hin|].
  exact (log_levels_known sample_URL [CallStart (Some sample_instance)] 7 "info"
           "Connecting to Stagetimer.io..." Hin).
Defined.

Lemma socket_is_latest_witness :
  let w := exec sample_URL [CallStart (Some sample_instance); CallStop;
                            CallStart (Some sample_instance)] init_world in
  socket w = Some 1 ∧ length (handles w) = 2.
Proof.
  intros w. split; [reflexivity|].
  destruct (socket_is_latest sample_URL
              [CallStart (Some sample_instance); CallStop;
               CallStart (Some sample_instance)]) as (_ & Hlatest & _).
  symmetry. exact (Hlatest 1 eq_refl).
Defined.

Lemma io_called_with_config_witness :
  config sample_instance = Some sample_config
  ∧ sample_URL (apiUrl sample_config) = Some sample_url
  ∧ (∃ opts,
       filter (λ e, transport_call e = true)
              (since init_world
                     (socketStart sample_URL (Some sample_instance) init_world).2)
       = [EIo 0 "https://api.stagetimer.io" opts; ESocketConnect 0]
       ∧ path opts = "/v1/socket.io").
Proof.
  split; [reflexivity|]. split; [reflexivity|].
  destruct (io_called_with_config sample_URL sample_instance sample_config sample_url
              init_world) as (opts & Hcalls & Hpath & _); [reflexivity..|].
  exists opts. split; [exact Hcalls | exact Hpath].
Defined.
